(** * Video Segment Annotator: a shallow embedding of [video_annotator.py]

    The development follows the source file top-down: the Python
    primitives the code relies on (number conversions, format
    specifications, string tests), the annotator state with its playback,
    seek and ledger operations, the segment exporter and the dataset
    unifier.  Theorems come after all definitions.

    Numbers.  Python [int] is [Z].  Python [float] values (frame rates,
    times in seconds, the scale position) are modelled by exact rationals
    [Q]: every finite double is a rational, and the model computes every
    arithmetic operation without rounding.  Widget layout, pixel data and
    the codec are outside the model. *)

From Stdlib Require Import ZArith QArith Qround Qabs String Ascii List Lia.
From Stdlib Require Import DecimalString DecimalN DecimalPos.
From stdpp Require Import base option list gmap strings sorting.

Local Open Scope Z_scope.

(** ** Python primitives *)

(** [int(x)] on a float: truncation toward zero. *)
Definition py_int (x : Q) : Z := Z.quot (Qnum x) (Z.pos (Qden x)).

(** [x // y] and [x % y] on floats, for a divisor [y] different from zero:
    the floored quotient and the remainder carrying the sign of [y]. *)
Definition py_floordiv (x y : Q) : Q := inject_Z (Qfloor (x / y)).
Definition py_mod (x y : Q) : Q := (x - y * inject_Z (Qfloor (x / y)))%Q.

(** [x > 0] and [x <= y] on floats. *)
Definition Qlt_bool (x y : Q) : bool := negb (Qle_bool y x).

(** [min] and [max] on ints are [Z.min] and [Z.max]. *)

(** The decimal digits of a natural number, as [str] prints them. *)
Definition str_N (n : N) : string := NilZero.string_of_uint (N.to_uint n).

(** [str(n)] on an int. *)
Definition str (n : Z) : string := NilZero.string_of_int (Z.to_int n).

Fixpoint zeros (k : nat) : string :=
  match k with
  | O => EmptyString
  | S k' => String "0"%char (zeros k')
  end.

(** The format specification [{n:0Wd}]: sign-aware zero padding up to a
    minimum width of [W] characters; longer numbers are printed in full. *)
Definition format_0d (W : nat) (n : Z) : string :=
  let sign := if n <? 0 then "-"%string else ""%string in
  let digits := str_N (Z.abs_N n) in
  sign +:+ zeros (W - String.length sign - String.length digits) +:+ digits.

(** [name.startswith(p)] and [name.endswith(p)], on the characters of the
    two strings. *)
Definition chars (s : string) : list ascii := list_ascii_of_string s.

Definition startswith (name p : string) : bool :=
  bool_decide (chars p `prefix_of` chars name).

Definition endswith (name p : string) : bool :=
  bool_decide (chars p `suffix_of` chars name).

(** ** Playback/seek controller: [format_time] *)

(** [format_time(seconds)]:
    [minutes = int(seconds // 60)], [seconds = int(seconds % 60)],
    result [f"{minutes:02d}:{seconds:02d}"]. *)
Definition format_time (seconds : Q) : string :=
  let minutes := py_int (py_floordiv seconds 60) in
  let seconds := py_int (py_mod seconds 60) in
  format_0d 2 minutes +:+ ":" +:+ format_0d 2 seconds.

(** ** The annotator state *)

(** What [cv2.VideoCapture] reports about an opened file:
    [CAP_PROP_FRAME_COUNT] and [CAP_PROP_FPS], both floats. *)
Record VideoProps := {
  CAP_PROP_FRAME_COUNT : Q;
  CAP_PROP_FPS : Q
}.

(** A capture object: the path it was created for and, when [isOpened()]
    holds, the properties of the stream. *)
Record Capture := {
  cap_path : string;
  cap_props : option VideoProps
}.

(** The [videos] folder: file names, each with what the decoder makes of
    the file ([None] when it cannot be opened as a video). *)
Abbreviation VideosDir := (gmap string (option VideoProps)).

(** [cv2.VideoCapture(str(path))] for a path inside the videos folder. *)
Definition VideoCapture (videos : VideosDir) (path : string) : Capture :=
  {| cap_path := path; cap_props := mjoin (videos !! path) |}.

(** Blocking notices raised through [messagebox]. *)
Inductive Notice :=
  | showwarning (title message : string)
  | showinfo (title message : string)
  | showerror (title message : string).

(** The fields of [VideoSegmentAnnotator] that the operations read or
    write.  [progress_var] and [time_var] are the Tk variables behind the
    scale and the time label; [notices] records the message boxes shown,
    oldest first. *)
Record Annotator := {
  cap : option Capture;
  current_video_path : option string;
  video_files : list string;
  current_video_index : nat;
  is_playing : bool;
  current_frame : Z;
  total_frames : Z;
  fps : Q;
  video_duration : Q;
  segments : list (Q * Q);
  temp_start_time : option Q;
  progress_var : Q;
  time_var : string;
  notices : list Notice
}.

(** The state built by [__init__] before [load_videos] runs. *)
Definition init : Annotator := {|
  cap := None;
  current_video_path := None;
  video_files := [];
  current_video_index := 0%nat;
  is_playing := false;
  current_frame := 0;
  total_frames := 0;
  fps := 30;
  video_duration := 0;
  segments := [];
  temp_start_time := None;
  progress_var := 0;
  time_var := "00:00 / 00:00";
  notices := []
|}.

(** Field assignments [self.f = v]. *)
Definition set_cap v (st : Annotator) : Annotator :=
  {| cap := v; current_video_path := current_video_path st;
     video_files := video_files st; current_video_index := current_video_index st;
     is_playing := is_playing st; current_frame := current_frame st;
     total_frames := total_frames st; fps := fps st;
     video_duration := video_duration st; segments := segments st;
     temp_start_time := temp_start_time st; progress_var := progress_var st;
     time_var := time_var st; notices := notices st |}.

Definition set_current_video_path v (st : Annotator) : Annotator :=
  {| cap := cap st; current_video_path := v;
     video_files := video_files st; current_video_index := current_video_index st;
     is_playing := is_playing st; current_frame := current_frame st;
     total_frames := total_frames st; fps := fps st;
     video_duration := video_duration st; segments := segments st;
     temp_start_time := temp_start_time st; progress_var := progress_var st;
     time_var := time_var st; notices := notices st |}.

Definition set_video_files v (st : Annotator) : Annotator :=
  {| cap := cap st; current_video_path := current_video_path st;
     video_files := v; current_video_index := current_video_index st;
     is_playing := is_playing st; current_frame := current_frame st;
     total_frames := total_frames st; fps := fps st;
     video_duration := video_duration st; segments := segments st;
     temp_start_time := temp_start_time st; progress_var := progress_var st;
     time_var := time_var st; notices := notices st |}.

Definition set_current_video_index v (st : Annotator) : Annotator :=
  {| cap := cap st; current_video_path := current_video_path st;
     video_files := video_files st; current_video_index := v;
     is_playing := is_playing st; current_frame := current_frame st;
     total_frames := total_frames st; fps := fps st;
     video_duration := video_duration st; segments := segments st;
     temp_start_time := temp_start_time st; progress_var := progress_var st;
     time_var := time_var st; notices := notices st |}.

Definition set_is_playing v (st : Annotator) : Annotator :=
  {| cap := cap st; current_video_path := current_video_path st;
     video_files := video_files st; current_video_index := current_video_index st;
     is_playing := v; current_frame := current_frame st;
     total_frames := total_frames st; fps := fps st;
     video_duration := video_duration st; segments := segments st;
     temp_start_time := temp_start_time st; progress_var := progress_var st;
     time_var := time_var st; notices := notices st |}.

Definition set_current_frame v (st : Annotator) : Annotator :=
  {| cap := cap st; current_video_path := current_video_path st;
     video_files := video_files st; current_video_index := current_video_index st;
     is_playing := is_playing st; current_frame := v;
     total_frames := total_frames st; fps := fps st;
     video_duration := video_duration st; segments := segments st;
     temp_start_time := temp_start_time st; progress_var := progress_var st;
     time_var := time_var st; notices := notices st |}.

Definition set_video_properties frames rate duration (st : Annotator) : Annotator :=
  {| cap := cap st; current_video_path := current_video_path st;
     video_files := video_files st; current_video_index := current_video_index st;
     is_playing := is_playing st; current_frame := current_frame st;
     total_frames := frames; fps := rate;
     video_duration := duration; segments := segments st;
     temp_start_time := temp_start_time st; progress_var := progress_var st;
     time_var := time_var st; notices := notices st |}.

Definition set_segments v (st : Annotator) : Annotator :=
  {| cap := cap st; current_video_path := current_video_path st;
     video_files := video_files st; current_video_index := current_video_index st;
     is_playing := is_playing st; current_frame := current_frame st;
     total_frames := total_frames st; fps := fps st;
     video_duration := video_duration st; segments := v;
     temp_start_time := temp_start_time st; progress_var := progress_var st;
     time_var := time_var st; notices := notices st |}.

Definition set_temp_start_time v (st : Annotator) : Annotator :=
  {| cap := cap st; current_video_path := current_video_path st;
     video_files := video_files st; current_video_index := current_video_index st;
     is_playing := is_playing st; current_frame := current_frame st;
     total_frames := total_frames st; fps := fps st;
     video_duration := video_duration st; segments := segments st;
     temp_start_time := v; progress_var := progress_var st;
     time_var := time_var st; notices := notices st |}.

Definition set_display progress text (st : Annotator) : Annotator :=
  {| cap := cap st; current_video_path := current_video_path st;
     video_files := video_files st; current_video_index := current_video_index st;
     is_playing := is_playing st; current_frame := current_frame st;
     total_frames := total_frames st; fps := fps st;
     video_duration := video_duration st; segments := segments st;
     temp_start_time := temp_start_time st; progress_var := progress;
     time_var := text; notices := notices st |}.

(** A [messagebox] call appends to the log of notices. *)
Definition notify (n : Notice) (st : Annotator) : Annotator :=
  {| cap := cap st; current_video_path := current_video_path st;
     video_files := video_files st; current_video_index := current_video_index st;
     is_playing := is_playing st; current_frame := current_frame st;
     total_frames := total_frames st; fps := fps st;
     video_duration := video_duration st; segments := segments st;
     temp_start_time := temp_start_time st; progress_var := progress_var st;
     time_var := time_var st; notices := notices st ++ [n] |}.

(** [self.current_frame / self.fps if self.fps > 0 else 0], the current
    time in seconds used by the display and by the ledger. *)
Definition current_time (st : Annotator) : Q :=
  if Qlt_bool 0 (fps st) then (inject_Z (current_frame st) / fps st)%Q else 0%Q.

(** [update_video_display]: nothing without a capture; otherwise the
    progress percentage and the time text are refreshed.  (The decoded
    image shown in the label is not modelled.) *)
Definition update_video_display (st : Annotator) : Annotator :=
  match cap st with
  | None => st
  | Some _ =>
      let progress :=
        if 0 <? total_frames st
        then (inject_Z (current_frame st) / inject_Z (total_frames st) * 100)%Q
        else 0%Q in
      set_display progress
        (format_time (current_time st) +:+ " / " +:+ format_time (video_duration st))
        st
  end.

(** ** Loading videos *)

Definition video_extensions : list string := [".mp4"; ".avi"; ".mov"; ".MOV"].

(** [videos_dir.glob(f'*{ext}')]: the entries of the folder whose name
    ends with [ext], in directory order ([pathlib]'s [*] also matches
    names that begin with a dot). *)
Definition glob_star (ext : string) (names : list string) : list string :=
  filter (λ name, endswith name ext = true) names.

(** The comprehension inside the loop of [load_videos]: the matches of
    one pattern that are not hidden files. *)
Definition visible_matches (ext : string) (names : list string) : list string :=
  filter (λ name, startswith name "." = false) (glob_star ext names).

(** [list.sort()] on paths of one folder: ascending by name. *)
Definition sort_names (l : list string) : list string := merge_sort String.le l.

Inductive LoadOutcome :=
  | Loaded          (* the new video is open and the state was reset *)
  | NoVideoFiles    (* [video_files] is empty: nothing done *)
  | OpenFailed      (* the capture did not open: error notice, early return *)
  | IndexOutOfRange (* [video_files[current_video_index]] raised *)
  | NotMoved.       (* previous/next at the end of the list: nothing done *)

(** [load_current_video]. *)
Definition load_current_video (videos : VideosDir) (st : Annotator)
  : LoadOutcome * Annotator :=
  match video_files st with
  | [] => (NoVideoFiles, st)
  | _ :: _ =>
      match video_files st !! current_video_index st with
      | None => (IndexOutOfRange, st)
      | Some path =>
          let c := VideoCapture videos path in
          let st := set_cap (Some c) (set_current_video_path (Some path) st) in
          match cap_props c with
          | None =>
              (OpenFailed,
               notify (showerror "Error" ("Could not open video: " +:+ path)) st)
          | Some props =>
              let frames := py_int (CAP_PROP_FRAME_COUNT props) in
              let rate := CAP_PROP_FPS props in
              let duration :=
                if Qlt_bool 0 rate then (inject_Z frames / rate)%Q else 0%Q in
              let st := set_video_properties frames rate duration st in
              (* Reset video state *)
              let st := set_current_frame 0 st in
              let st := set_is_playing false st in
              let st := set_segments [] st in
              let st := set_temp_start_time None st in
              (Loaded, update_video_display st)
          end
      end
  end.

(** The loop of [load_videos] over the extensions: [video_files] is
    extended by the visible matches of each pattern in turn. *)
Definition found_videos (videos : VideosDir) : list string :=
  concat (map (λ ext, visible_matches ext (map_to_list videos).*1) video_extensions).

(** [load_videos]: the folder is given by the names it holds (a folder
    that is missing is created first and is then the empty map). *)
Definition load_videos (videos : VideosDir) (st : Annotator)
  : LoadOutcome * Annotator :=
  let found := found_videos videos in
  let st := set_video_files found st in
  match found with
  | [] => (NoVideoFiles, st)
  | _ :: _ =>
      let st := set_video_files (sort_names found) st in
      let st := set_current_video_index 0%nat st in
      load_current_video videos st
  end.

(** [previous_video] and [next_video]. *)
Definition previous_video (videos : VideosDir) (st : Annotator)
  : LoadOutcome * Annotator :=
  match video_files st with
  | [] => (NotMoved, st)
  | _ :: _ =>
      if (0 <? current_video_index st)%nat
      then load_current_video videos
             (set_current_video_index (current_video_index st - 1)%nat st)
      else (NotMoved, st)
  end.

Definition next_video (videos : VideosDir) (st : Annotator)
  : LoadOutcome * Annotator :=
  match video_files st with
  | [] => (NotMoved, st)
  | _ :: _ =>
      if (Z.of_nat (current_video_index st) <? Z.of_nat (length (video_files st)) - 1)
      then load_current_video videos
             (set_current_video_index (current_video_index st + 1)%nat st)
      else (NotMoved, st)
  end.

(** ** Playback and seeking *)

(** [toggle_play] flips the flag (the background loop it starts only
    advances [current_frame] and is not part of this model). *)
Definition toggle_play (st : Annotator) : Annotator :=
  set_is_playing (negb (is_playing st)) st.

(** [seek_forward]: [skip_frames = int(5 * self.fps)], then
    [min(current_frame + skip_frames, total_frames - 1)]. *)
Definition seek_forward (st : Annotator) : Annotator :=
  let skip_frames := py_int (5 * fps st)%Q in
  update_video_display
    (set_current_frame (Z.min (current_frame st + skip_frames) (total_frames st - 1)) st).

(** [seek_backward]: [max(current_frame - skip_frames, 0)]. *)
Definition seek_backward (st : Annotator) : Annotator :=
  let skip_frames := py_int (5 * fps st)%Q in
  update_video_display
    (set_current_frame (Z.max (current_frame st - skip_frames) 0) st).

(** [on_progress_change(value)]: the scale position, from 0 to 100. *)
Definition on_progress_change (value : Q) (st : Annotator) : Annotator :=
  if negb (is_playing st)
  then
    let progress := value in
    update_video_display
      (set_current_frame (py_int (progress / 100 * inject_Z (total_frames st))%Q) st)
  else st.

(** ** Segment ledger *)

Definition mark_start (st : Annotator) : Annotator :=
  set_temp_start_time (Some (current_time st)) st.

(** The two warnings of [mark_end], under the names the specification
    gives to the failures they report. *)
Definition NoStartMarked : Notice :=
  showwarning "Warning" "Please mark the start time first!".

Definition InvalidRange : Notice :=
  showwarning "Warning" "End time must be after start time!".

Definition mark_end (st : Annotator) : Annotator :=
  match temp_start_time st with
  | None => notify NoStartMarked st
  | Some start =>
      let now := current_time st in
      if Qle_bool now start
      then notify InvalidRange st
      else set_temp_start_time None (set_segments (segments st ++ [(start, now)]) st)
  end.

Definition clear_last_segment (st : Annotator) : Annotator :=
  match segments st with
  | _ :: _ => set_segments (removelast (segments st)) st
  | [] => notify (showinfo "Info" "No segments to remove!") st
  end.

Definition clear_all_segments (st : Annotator) : Annotator :=
  match segments st with
  | _ :: _ => set_temp_start_time None (set_segments [] st)
  | [] => notify (showinfo "Info" "No segments to clear!") st
  end.

(** ** Files of a project *)

(** JSON as this program writes and reads it: scalar values, and objects
    with scalar fields ([[]] is the empty object [{}]). *)
Inductive jvalue :=
  | JFloat (x : Q)
  | JInt (n : Z)
  | JStr (s : string).

Definition json := list (string * jvalue).

(** The keys of [dataset_summary.json]. *)
Module Summary.
Record segment_info := {
  segment_name : string;
  frames_count : nat;
  metadata : json
}.
Record t := {
  total_frames : nat;
  total_segments : nat;
  creation_timestamp : string;
  segments : list segment_info
}.
End Summary.

(** [frame_list.txt]: the two counts of its header and the listed names. *)
Record FrameList := {
  listed_total_frames : nat;
  listed_total_segments : nat;
  listed_files : list string
}.

Section Project.
(** Decoded pictures are kept abstract. *)
Context {Frame : Type}.

(** A video file as a decoder sees it: its frame rate and the frames
    that successive [read()] calls return. *)
Record VideoFile := {
  vf_fps : Q;
  vf_frames : list Frame
}.

(** A file in a frames folder or in the unified dataset. *)
Inductive File :=
  | Image (picture : Frame)
  | JsonFile (content : json)
  | Blob.

(** An entry of [segments/frames]: a plain file or a segment folder. *)
Inductive Entry :=
  | RegularFile (f : File)
  | Folder (files : gmap string File).

(** [unified_dataset/]: each part is [None] until it is created. *)
Record UnifiedDir := {
  images : option (gmap string File);
  metadata : option (gmap string File);
  dataset_summary_json : option Summary.t;
  frame_list_txt : option FrameList
}.

(** The directories below the project root that export and unification
    touch; [None] stands for a directory that does not exist. *)
Record ProjectDirs := {
  segments_videos : gmap string VideoFile;
  segments_frames : option (gmap string Entry);
  unified_dataset_dir : option UnifiedDir
}.

(** [d.mkdir(exist_ok=True)] on a directory of files. *)
Definition mkdir_exist_ok {A} (d : option (gmap string A)) : option (gmap string A) :=
  match d with
  | None => Some ∅
  | Some files => Some files
  end.

(** ** Segment exporter *)

(** The codec is an external collaborator: [mp4v rate frames] is what
    [cv2.VideoCapture] later makes of the file that [cv2.VideoWriter]
    produced from [frames] at [rate]; [None] when it does not open. *)
Variable mp4v : Q → list Frame → option VideoFile.

(** A capture being read: the frames of the file and the position of
    the next [read()]. *)
Record Reader := {
  rd_frames : list Frame;
  rd_pos : nat
}.

(** [cap.set(cv2.CAP_PROP_POS_FRAMES, n)], for a position [n] that is
    not negative. *)
Definition set_pos_frames (n : Z) (rd : Reader) : Reader :=
  {| rd_frames := rd_frames rd; rd_pos := Z.to_nat n |}.

(** [ret, frame = cap.read()]. *)
Definition read (rd : Reader) : option Frame * Reader :=
  match rd_frames rd !! rd_pos rd with
  | Some frame => (Some frame, {| rd_frames := rd_frames rd; rd_pos := S (rd_pos rd) |})
  | None => (None, rd)
  end.

(** The loop [for frame_num in range(start_frame, end_frame)] of
    [create_segment_video], with [n] iterations left: stop at the first
    failed read, otherwise hand the frame to the writer. *)
Fixpoint copy_range (n : nat) (rd : Reader) (out : list Frame) : list Frame :=
  match n with
  | O => out
  | S n' =>
      match read rd with
      | (None, _) => out
      | (Some frame, rd') => copy_range n' rd' (out ++ [frame])
      end
  end.

Definition start_frame_of (start_time rate : Q) : Z := py_int (start_time * rate)%Q.
Definition end_frame_of (end_time rate : Q) : Z := py_int (end_time * rate)%Q.

(** The frames [create_segment_video] passes to the writer.  A source
    that does not open reports a frame rate of 0 and yields no frame. *)
Definition segment_frames (source : option VideoFile) (start_time end_time : Q)
  : list Frame :=
  let rate := from_option vf_fps 0%Q source in
  let start_frame := start_frame_of start_time rate in
  let end_frame := end_frame_of end_time rate in
  let rd := set_pos_frames start_frame
              {| rd_frames := from_option vf_frames [] source; rd_pos := 0 |} in
  copy_range (Z.to_nat (end_frame - start_frame)) rd [].

(** [create_segment_video]: the clip replaces what was stored under
    [clip_name] in [segments/videos]; a file that no capture can open
    is the same as no file to the code that follows. *)
Definition create_segment_video (source : option VideoFile)
    (start_time end_time : Q) (clip_name : string) (p : ProjectDirs) : ProjectDirs :=
  let rate := from_option vf_fps 0%Q source in
  let written := segment_frames source start_time end_time in
  {| segments_videos :=
       match mp4v rate written with
       | Some clip => <[clip_name := clip]> (segments_videos p)
       | None => delete clip_name (segments_videos p)
       end;
     segments_frames := segments_frames p;
     unified_dataset_dir := unified_dataset_dir p |}.

(** [f"frame_{frame_count+1:04d}.jpg"]. *)
Definition frame_name (frame_count : nat) : string :=
  "frame_" +:+ format_0d 4 (Z.of_nat frame_count + 1) +:+ ".jpg".

(** The [while True] loop of [extract_segment_frames] over the frames
    still to be read from the clip: every frame read is written under
    the next name and counted. *)
Fixpoint write_frames (remaining : list Frame) (frame_count : nat)
    (dir : gmap string File) : nat * gmap string File :=
  match remaining with
  | [] => (frame_count, dir)
  | frame :: rest =>
      write_frames rest (S frame_count) (<[frame_name frame_count := Image frame]> dir)
  end.

(** The [metadata] dictionary of [extract_segment_frames]. *)
Definition segment_metadata (original_video : string) (start_time end_time rate : Q)
    (frame_count : nat) (segment : string) : json :=
  [ ("original_video", JStr original_video);
    ("segment_start_time", JFloat start_time);
    ("segment_end_time", JFloat end_time);
    ("segment_duration", JFloat (end_time - start_time)%Q);
    ("fps", JFloat rate);
    ("total_frames", JInt (Z.of_nat frame_count));
    ("extracted_frames", JInt (Z.of_nat frame_count));
    ("segment_video_path", JStr ("segments/videos/" +:+ segment +:+ ".mp4"));
    ("frames_directory", JStr ("segments/frames/" +:+ segment)) ].

(** [output_dir.mkdir(parents=True, exist_ok=True)] inside
    [segments/frames]: the files of the folder found or created, or
    [None] when a plain file of that name is in the way (the call
    raises). *)
Definition frames_folder (segment : string) (frames : option (gmap string Entry))
  : option (gmap string File) :=
  match default ∅ frames !! segment with
  | Some (Folder files) => Some files
  | Some (RegularFile _) => None
  | None => Some ∅
  end.

Definition put_frames_folder (segment : string) (folder : gmap string File)
    (p : ProjectDirs) : ProjectDirs :=
  {| segments_videos := segments_videos p;
     segments_frames :=
       Some (<[segment := Folder folder]> (default ∅ (segments_frames p)));
     unified_dataset_dir := unified_dataset_dir p |}.

(** [extract_segment_frames]: the number of frames written, or [None]
    for the exception raised when the folder cannot be made or the clip
    does not open (the folder has been created by then). *)
Definition extract_segment_frames (original_video segment : string)
    (start_time end_time : Q) (p : ProjectDirs) : option nat * ProjectDirs :=
  match frames_folder segment (segments_frames p) with
  | None => (None, p)
  | Some folder =>
      match segments_videos p !! (segment +:+ ".mp4") with
      | None => (None, put_frames_folder segment folder p)
      | Some clip =>
          let '(frame_count, folder) := write_frames (vf_frames clip) 0 folder in
          let meta := segment_metadata original_video start_time end_time
                        (vf_fps clip) frame_count segment in
          (Some frame_count,
           put_frames_folder segment (<["metadata.json" := JsonFile meta]> folder) p)
      end
  end.

(** One iteration of the loop of [export_segments], for the segment at
    0-based position [i] of the ledger of the video with stem
    [video_name]. *)
Definition export_segment (source : option VideoFile) (original_video video_name : string)
    (i : nat) (segment : Q * Q) (p : ProjectDirs) : option nat * ProjectDirs :=
  let segment_name := video_name +:+ "_segment_" +:+ str (Z.of_nat i + 1) in
  let p := create_segment_video source segment.1 segment.2 (segment_name +:+ ".mp4") p in
  extract_segment_frames original_video segment_name segment.1 segment.2 p.

(** [export_segments]: the loop stops at the first exception; what was
    written before stays. The result tells whether all segments were
    exported. *)
Fixpoint export_from (source : option VideoFile) (original_video video_name : string)
    (i : nat) (todo : list (Q * Q)) (p : ProjectDirs) : bool * ProjectDirs :=
  match todo with
  | [] => (true, p)
  | segment :: rest =>
      match export_segment source original_video video_name i segment p with
      | (None, p') => (false, p')
      | (Some _, p') => export_from source original_video video_name (S i) rest p'
      end
  end.
End Project.

(** ** Dataset unifier *)

Inductive UnifyOutcome :=
  | NoFramesFound     (* first guard: warning, nothing touched *)
  | NoSegmentFolders  (* second guard: warning after the directories were made *)
  | Unified           (* summary and frame list written *)
  | UnifyRaised.      (* an exception left the method before the summary *)

Section Unifier.
Context {Frame : Type}.

(** Whether [shutil.copy2], and [shutil.copy] tried after it, manage to
    copy the file [name] of the segment folder [segment]. A copy that
    fails is taken to leave no file behind. *)
Variables copy2_succeeds copy_succeeds : string → string → bool.

(** [time.strftime("%Y-%m-%d %H:%M:%S")] at the time of the run. *)
Variable timestamp : string.

(** [folder.glob("frame_*.jpg")] and [dataset_images_dir.glob("*.jpg")]
    on a single name. *)
Definition is_frame_jpg (name : string) : bool :=
  startswith name "frame_" && endswith name ".jpg"
  && (10 <=? String.length name)%nat.

Definition is_jpg (name : string) : bool := endswith name ".jpg".

Definition is_dir (e : @Entry Frame) : bool :=
  match e with
  | Folder _ => true
  | RegularFile _ => false
  end.

(** [[f for f in frames_dir.iterdir() if f.is_dir()]], then [sort()]. *)
Definition segment_folders (frames : gmap string (@Entry Frame)) : list string :=
  sort_names (filter (λ e, is_dir e.2 = true) (map_to_list frames)).*1.

Definition folder_files (frames : gmap string (@Entry Frame)) (segment : string)
  : gmap string (@File Frame) :=
  match frames !! segment with
  | Some (Folder files) => files
  | _ => ∅
  end.

(** [list(segment_folder.glob("frame_*.jpg"))], then [sort()]. *)
Definition frame_files (files : gmap string (@File Frame)) : list string :=
  sort_names (filter (λ name, is_frame_jpg name = true) (map_to_list files).*1).

(** The inner loop: each frame is copied to
    [f"{segment_name}_{frame_file.name}"]; when [copy2] raises, [copy]
    is tried; when that raises too the frame is skipped. Both counters
    move only on a copy that succeeded. *)
Fixpoint copy_frames (segment_name : string) (files : gmap string (@File Frame))
    (todo : list string) (dataset_images : gmap string (@File Frame))
    (frames_in_segment total_frames_copied : nat)
  : gmap string (@File Frame) * nat * nat :=
  match todo with
  | [] => (dataset_images, frames_in_segment, total_frames_copied)
  | name :: rest =>
      let new_frame_name := segment_name +:+ "_" +:+ name in
      match files !! name with
      | Some file =>
          if copy2_succeeds segment_name name then
            copy_frames segment_name files rest
              (<[new_frame_name := file]> dataset_images)
              (S frames_in_segment) (S total_frames_copied)
          else if copy_succeeds segment_name name then
            copy_frames segment_name files rest
              (<[new_frame_name := file]> dataset_images)
              (S frames_in_segment) (S total_frames_copied)
          else
            copy_frames segment_name files rest dataset_images
              frames_in_segment total_frames_copied
      | None =>
          copy_frames segment_name files rest dataset_images
            frames_in_segment total_frames_copied
      end
  end.

(** What the outer loop carries from folder to folder. *)
Record Progress := {
  dataset_images : gmap string (@File Frame);
  dataset_metadata : gmap string (@File Frame);
  total_frames_copied : nat;
  summary_segments : list Summary.segment_info
}.

(** The metadata step of one folder: the loaded metadata (the empty
    object without a [metadata.json]) and the metadata directory after
    the copy, or [None] when [json.load] or [shutil.copy2] raises. *)
Definition take_metadata (segment_name : string) (files : gmap string (@File Frame))
    (dataset_metadata : gmap string (@File Frame))
  : option (json * gmap string (@File Frame)) :=
  match files !! "metadata.json" with
  | None => Some ([], dataset_metadata)
  | Some (JsonFile content) =>
      if copy2_succeeds segment_name "metadata.json"
      then Some (content,
                 <[segment_name +:+ "_metadata.json" := JsonFile content]> dataset_metadata)
      else None
  | Some _ => None
  end.

(** The body of the outer loop for one segment folder. *)
Definition process_folder (frames : gmap string (@Entry Frame)) (segment_name : string)
    (w : Progress) : option Progress :=
  let files := folder_files frames segment_name in
  let todo := frame_files files in
  match take_metadata segment_name files (dataset_metadata w) with
  | None => None
  | Some (segment_metadata, dataset_metadata') =>
      let '(dataset_images', frames_in_segment, total') :=
        copy_frames segment_name files todo (dataset_images w) 0 (total_frames_copied w) in
      Some {| dataset_images := dataset_images';
              dataset_metadata := dataset_metadata';
              total_frames_copied := total';
              summary_segments :=
                summary_segments w ++
                [ {| Summary.segment_name := segment_name;
                     Summary.frames_count := frames_in_segment;
                     Summary.metadata := segment_metadata |} ] |}
  end.

(** The outer loop; on an exception the progress made before the
    failing folder is what is left on disk. *)
Fixpoint process_folders (frames : gmap string (@Entry Frame)) (todo : list string)
    (w : Progress) : bool * Progress :=
  match todo with
  | [] => (true, w)
  | segment_name :: rest =>
      match process_folder frames segment_name w with
      | None => (false, w)
      | Some w' => process_folders frames rest w'
      end
  end.

Definition no_frames_warning : Notice :=
  showwarning "Warning" "No extracted frames found! Please export some segments first.".

Definition no_folders_warning : Notice :=
  showwarning "Warning" "No segment frame folders found!".

(** The closing [messagebox.showinfo("Success", ...)]; its text reports
    the two totals (line breaks, pictographs and the list of output
    locations are left out). *)
Definition success_notice (total_frames_copied segments_count : nat) : Notice :=
  showinfo "Success"
    ("Unified dataset created successfully! Total frames: "
     +:+ str (Z.of_nat total_frames_copied)
     +:+ " Total segments: " +:+ str (Z.of_nat segments_count)).

(** The three [mkdir(exist_ok=True)] calls. *)
Definition make_unified_dirs (u : option (@UnifiedDir Frame)) : @UnifiedDir Frame :=
  match u with
  | None =>
      {| images := Some ∅; metadata := Some ∅;
         dataset_summary_json := None; frame_list_txt := None |}
  | Some u =>
      {| images := mkdir_exist_ok (images u);
         metadata := mkdir_exist_ok (metadata u);
         dataset_summary_json := dataset_summary_json u;
         frame_list_txt := frame_list_txt u |}
  end.

(** [create_unified_dataset]. *)
Definition create_unified_dataset (p : @ProjectDirs Frame)
  : UnifyOutcome * @ProjectDirs Frame * list Notice :=
  match segments_frames p with
  | None => (NoFramesFound, p, [no_frames_warning])
  | Some frames =>
      if decide (map_to_list frames = []) then (NoFramesFound, p, [no_frames_warning])
      else
        (* Create unified dataset directories *)
        let u := make_unified_dirs (unified_dataset_dir p) in
        let with_unified u :=
          {| segments_videos := segments_videos p;
             segments_frames := segments_frames p;
             unified_dataset_dir := Some u |} in
        (* Get all segment folders *)
        let folders := segment_folders frames in
        match folders with
        | [] => (NoSegmentFolders, with_unified u, [no_folders_warning])
        | _ :: _ =>
            let w0 := {| dataset_images := default ∅ (images u);
                         dataset_metadata := default ∅ (metadata u);
                         total_frames_copied := 0;
                         summary_segments := [] |} in
            match process_folders frames folders w0 with
            | (false, w) =>
                (UnifyRaised,
                 with_unified
                   {| images := Some (dataset_images w);
                      metadata := Some (dataset_metadata w);
                      dataset_summary_json := dataset_summary_json u;
                      frame_list_txt := frame_list_txt u |},
                 [])
            | (true, w) =>
                let dataset_summary :=
                  {| Summary.total_frames := total_frames_copied w;
                     Summary.total_segments := length folders;
                     Summary.creation_timestamp := timestamp;
                     Summary.segments := summary_segments w |} in
                let listed :=
                  sort_names (filter (λ name, is_jpg name = true)
                                (map_to_list (dataset_images w)).*1) in
                (Unified,
                 with_unified
                   {| images := Some (dataset_images w);
                      metadata := Some (dataset_metadata w);
                      dataset_summary_json := Some dataset_summary;
                      frame_list_txt :=
                        Some {| listed_total_frames := length listed;
                                listed_total_segments := length folders;
                                listed_files := listed |} |},
                 [success_notice (total_frames_copied w) (length folders)])
            end
        end
  end.
End Unifier.

(** ** The playback loop *)

(** The condition of the [while] in [play_loop]. *)
Definition keeps_playing (st : Annotator) : bool :=
  is_playing st && (current_frame st <? total_frames st - 1).

(** One pass through the body of the [while]: the frame counter moves by
    one and a display refresh is requested (taken to run at once; the
    [time.sleep] between passes is not modelled). *)
Definition play_iteration (st : Annotator) : Annotator :=
  update_video_display (set_current_frame (current_frame st + 1) st).

(** The [if] after the loop: at the last frame playback is switched off. *)
Definition play_exit (st : Annotator) : Annotator :=
  if total_frames st - 1 <=? current_frame st then set_is_playing false st else st.

(** [play_loop] running without any other event in between; [None] when
    the fuel does not cover the passes that are left. *)
Fixpoint play_loop (fuel : nat) (st : Annotator) : option Annotator :=
  match fuel with
  | O => None
  | S fuel' =>
      if keeps_playing st then play_loop fuel' (play_iteration st)
      else Some (play_exit st)
  end.

(** ** The controls *)

(** The commands bound to the buttons and to the scale in [setup_ui],
    and the two steps the background loop takes on its own. The export,
    dataset and statistics buttons act on the annotator only through the
    message box they show: they are the last event. *)
Inductive Event :=
  | PreviousVideo
  | ReloadVideos
  | NextVideo
  | SeekBackward
  | TogglePlay
  | SeekForward
  | ProgressChange (value : Q)
  | MarkStart
  | MarkEnd
  | ClearLast
  | ClearAll
  | LoopIteration
  | LoopExit
  | OtherNotice (n : Notice).

(** The state after one event; [videos] is the videos folder as it is
    when the event is handled. *)
Definition handle (videos : VideosDir) (ev : Event) (st : Annotator) : Annotator :=
  match ev with
  | PreviousVideo => (previous_video videos st).2
  | ReloadVideos => (load_videos videos st).2
  | NextVideo => (next_video videos st).2
  | SeekBackward => seek_backward st
  | TogglePlay => toggle_play st
  | SeekForward => seek_forward st
  | ProgressChange value => on_progress_change value st
  | MarkStart => mark_start st
  | MarkEnd => mark_end st
  | ClearLast => clear_last_segment st
  | ClearAll => clear_all_segments st
  | LoopIteration => if keeps_playing st then play_iteration st else st
  | LoopExit => play_exit st
  | OtherNotice n => notify n st
  end.

(** The states the application can be in: [__init__] ends with
    [load_videos], and every later state comes from an event. *)
Inductive reachable : Annotator → Prop :=
  | reachable_start (videos : VideosDir) :
      reachable (load_videos videos init).2
  | reachable_step (videos : VideosDir) (ev : Event) (st : Annotator) :
      reachable st → reachable (handle videos ev st).

(** ** Exporting the ledger *)

(** [str.rfind(c)] on the characters of a string: the position of the
    last [c], if any. *)
Fixpoint rfind (c : ascii) (cs : list ascii) : option nat :=
  match cs with
  | [] => None
  | x :: rest =>
      match rfind c rest with
      | Some i => Some (S i)
      | None => if decide (x = c) then Some 0%nat else None
      end
  end.

(** [Path.stem]: the name up to its last dot, when that dot is neither
    the first nor the last character. *)
Definition stem (name : string) : string :=
  match rfind "."%char (chars name) with
  | Some i =>
      if (0 <? i)%nat && (i <? String.length name - 1)%nat
      then string_of_list_ascii (take i (chars name))
      else name
  | None => name
  end.

Inductive ExportOutcome :=
  | NothingToExport   (* empty ledger: warning *)
  | NoCurrentVideo    (* [current_video_path] is [None]: the method raises *)
  | Exported          (* every segment was exported *)
  | ExportFailed.     (* an exception stopped the loop: error notice *)

Definition nothing_to_export : Notice :=
  showwarning "Warning" "No segments marked for export!".

(** The two notices that end an export (the list of output locations and
    the text of the exception are left out). *)
Definition export_success (count : nat) : Notice :=
  showinfo "Success" ("Exported " +:+ str (Z.of_nat count) +:+ " segments successfully!").

Definition export_failed : Notice := showerror "Error" "Export failed".

Section ExportSegments.
Context {Frame : Type}.
Variable mp4v : Q → list Frame → option (@VideoFile Frame).

(** [export_segments]; [source] is what a capture opened on
    [current_video_path] decodes while the export runs. *)
Definition export_segments (source : option (@VideoFile Frame)) (st : Annotator)
    (p : @ProjectDirs Frame) : ExportOutcome * Annotator * @ProjectDirs Frame :=
  match segments st with
  | [] => (NothingToExport, notify nothing_to_export st, p)
  | _ :: _ =>
      match current_video_path st with
      | None => (NoCurrentVideo, st, p)
      | Some path =>
          let video_name := stem path in
          match export_from mp4v source path video_name 0 (segments st) p with
          | (true, p') =>
              (Exported, notify (export_success (length (segments st))) st, p')
          | (false, p') => (ExportFailed, notify export_failed st, p')
          end
      end
  end.
End ExportSegments.

(** ** Dataset statistics *)

Section Statistics.
Context {Frame : Type}.

(** The numbers [get_dataset_statistics] prints (the text around them is
    not modelled): the segment folders, the [frame_*.jpg] files in them,
    and the [*.jpg] files of the unified images directory; [None] where
    the report says that the unified dataset was not created. *)
Definition extracted_segments (p : @ProjectDirs Frame) : nat :=
  match segments_frames p with
  | Some frames => length (filter (λ e, is_dir e.2 = true) (map_to_list frames))
  | None => 0
  end.

Definition total_extracted_frames (p : @ProjectDirs Frame) : nat :=
  match segments_frames p with
  | Some frames =>
      foldl (λ total_frames folder,
               total_frames
               + length (filter (λ name, is_frame_jpg name = true)
                           (map_to_list (folder_files frames folder)).*1))%nat
            0%nat
            (filter (λ e, is_dir e.2 = true) (map_to_list frames)).*1
  | None => 0
  end.

Definition unified_dataset_frames (p : @ProjectDirs Frame) : option nat :=
  match unified_dataset_dir p with
  | Some u =>
      match images u with
      | Some files =>
          Some (length (filter (λ name, is_jpg name = true) (map_to_list files).*1))
      | None => Some 0%nat
      end
  | None => None
  end.
End Statistics.

(** * Vocabulary of the statements *)

(** The character of a decimal digit. *)
Definition digit (n : Z) : ascii := ascii_of_nat (48 + Z.to_nat n).


(** The four-character field of a frame number below 10000. *)
Definition four_digits (n : Z) : string :=
  String (digit (n / 1000)) (String (digit (n / 100 mod 10))
    (String (digit (n / 10 mod 10)) (String (digit (n mod 10)) EmptyString))).

(** Reading a decimal field back, leading zeros included. *)
Definition parse_decimal (s : string) : option N :=
  N.of_uint <$> NilEmpty.uint_of_string s.




(** A file name that ends with [ext], and a hidden file name: one that
    begins with a dot. *)
Definition has_suffix (name ext : string) : Prop := ∃ stem, name = stem +:+ ext.

Definition hidden (name : string) : Prop := ∃ rest, name = String "."%char rest.

(** The states used as concrete inputs: a folder with two playable
    videos, a hidden file and a text file; the annotator after loading
    it; and the annotator five seconds into the first video. *)
Definition demo_videos : VideosDir :=
  {[ "b.mp4" := Some {| CAP_PROP_FRAME_COUNT := 300; CAP_PROP_FPS := 30 |};
     "a.mov" := Some {| CAP_PROP_FRAME_COUNT := 900; CAP_PROP_FPS := 30 |};
     ".hidden.mp4" := Some {| CAP_PROP_FRAME_COUNT := 10; CAP_PROP_FPS := 30 |};
     "broken.avi" := None;
     "notes.txt" := None ]}.

Definition demo_loaded : Annotator := (load_videos demo_videos init).2.

Definition demo_at_5s : Annotator := seek_forward demo_loaded.

(** A start marked at five seconds, and the same with the playhead moved
    on to ten seconds. *)
Definition demo_marked : Annotator := mark_start demo_at_5s.

Definition demo_marked_at_10s : Annotator := seek_forward demo_marked.

(** The first video while it plays. *)
Definition demo_playing : Annotator := toggle_play demo_loaded.

(** The first video with a segment in the ledger, a further start marked
    and playback running. *)
Definition demo_busy : Annotator := toggle_play (mark_start (mark_end demo_marked_at_10s)).



(** A source of 200 numbered frames at 30 frames per second, a codec that
    gives back the frames it was given, and a project with nothing
    exported yet. *)
Definition demo_source : @VideoFile nat :=
  {| vf_fps := 30; vf_frames := seq 0 200 |}.

Definition lossless (rate : Q) (frames : list nat) : option (@VideoFile nat) :=
  Some {| vf_fps := rate; vf_frames := frames |}.

Definition empty_project : @ProjectDirs nat :=
  {| segments_videos := ∅; segments_frames := Some ∅; unified_dataset_dir := None |}.

(** Two exported segments, of three and two frames, not yet unified. *)
Definition two_segments : @ProjectDirs nat :=
  {| segments_videos := ∅;
     segments_frames := Some
       {[ "a_segment_1" := Folder {[ "frame_0001.jpg" := Image 1%nat;
                                     "frame_0002.jpg" := Image 2%nat;
                                     "frame_0003.jpg" := Image 3%nat;
                                     "metadata.json" := JsonFile [] ]};
          "b_segment_1" := Folder {[ "frame_0001.jpg" := Image 4%nat;
                                     "frame_0002.jpg" := Image 5%nat ]} ]};
     unified_dataset_dir := None |}.

(** Copies that never fail. *)
Definition always (segment name : string) : bool := true.

Section UnifierVocabulary.
Context {Frame : Type}.
Variables copy2_succeeds copy_succeeds : string → string → bool.

(** A frames directory that holds a stray plain file and no segment
    folder, in a project without a unified dataset. *)
Definition stray_file_project : @ProjectDirs Frame :=
  {| segments_videos := ∅;
     segments_frames := Some {[ ".DS_Store" := RegularFile Blob ]};
     unified_dataset_dir := None |}.

(** The copy of the frame [name] of the folder [segment] succeeds, at the
    first or at the second attempt. *)
Definition copy_lands (segment name : string) : bool :=
  copy2_succeeds segment name || copy_succeeds segment name.

(** The frames of a segment folder whose copy succeeds, in the order of
    the run. *)
Definition copied_frames (frames : gmap string (@Entry Frame)) (segment : string)
  : list string :=
  filter (λ name, copy_lands segment name = true)
    (frame_files (folder_files frames segment)).

(** All successful copies of a run, as pairs of a folder name and a frame
    name. *)
Definition copies_of (frames : gmap string (@Entry Frame)) (folders : list string)
  : list (string * string) :=
  concat (map (λ segment, map (pair segment) (copied_frames frames segment)) folders).

Definition successfully_copied (frames : gmap string (@Entry Frame))
  : list (string * string) :=
  copies_of frames (segment_folders frames).

(** [<segmentFolderName>_<originalFrameName>]. *)
Definition unified_name (copy : string * string) : string :=
  copy.1 +:+ "_" +:+ copy.2.

(** An entry of the summary that counts the successful copies of its
    folder. *)
Definition counted (frames : gmap string (@Entry Frame)) (info : Summary.segment_info)
  : Prop :=
  Summary.frames_count info
  = length (copied_frames frames (Summary.segment_name info)).

(** The unified images present before a run. *)
Definition images_before (p : @ProjectDirs Frame) : gmap string (@File Frame) :=
  default ∅ (unified_dataset_dir p ≫= images).
End UnifierVocabulary.

(** ** Vocabulary of the further properties *)

(** The current index points into the list of videos, when there is one. *)
Definition index_in_range (st : Annotator) : Prop :=
  video_files st = [] ∨ (current_video_index st < length (video_files st))%nat.


(** The name of the folder of the segment at 0-based position [i] of the
    ledger, as [export_segments] builds it. *)
Definition segment_folder_name (video_name : string) (i : nat) : string :=
  video_name +:+ "_segment_" +:+ str (Z.of_nat i + 1).

(** [<segmentFolderName>_metadata.json]. *)
Definition unified_metadata_name (segment : string) : string :=
  segment +:+ "_metadata.json".

Section ProjectVocabulary.
Context {Frame : Type}.
Variable copy2_succeeds : string → string → bool.

(** The file [name] of the segment folder [segment], if there is one. *)
Definition file_at (p : @ProjectDirs Frame) (segment name : string)
  : option (@File Frame) :=
  folder_files (default ∅ (segments_frames p)) segment !! name.

(** The unified metadata present before a run. *)
Definition metadata_before (p : @ProjectDirs Frame) : gmap string (@File Frame) :=
  default ∅ (unified_dataset_dir p ≫= metadata).

(** What the outer loop of the unifier starts from. *)
Definition initial_progress (p : @ProjectDirs Frame) : @Progress Frame :=
  {| dataset_images := images_before p;
     dataset_metadata := metadata_before p;
     total_frames_copied := 0;
     summary_segments := [] |}.

(** The parsed [metadata.json] of a segment folder, if it has one. *)
Definition folder_metadata (frames : gmap string (@Entry Frame)) (segment : string)
  : option json :=
  match folder_files frames segment !! "metadata.json" with
  | Some (JsonFile content) => Some content
  | _ => None
  end.

(** The metadata step of a folder goes through: no [metadata.json], or
    one that parses and is copied. *)
Definition metadata_readable (frames : gmap string (@Entry Frame)) (segment : string)
  : bool :=
  match folder_files frames segment !! "metadata.json" with
  | None => true
  | Some (JsonFile _) => copy2_succeeds segment "metadata.json"
  | Some _ => false
  end.
End ProjectVocabulary.

(** A session on the first demo video: seek, mark the start, seek, mark
    the end. *)
Definition demo_session : Annotator :=
  handle demo_videos MarkEnd
    (handle demo_videos SeekForward
       (handle demo_videos MarkStart
          (handle demo_videos SeekForward (load_videos demo_videos init).2))).

(** The same session after moving on twice, to the file that does not
    open, without the loads in between. *)
Definition demo_at_broken : Annotator := set_current_video_index 2 demo_session.

(** The demo project after the export of the ledger of [demo_session]. *)
Definition demo_exported : @ProjectDirs nat :=
  (export_segments lossless (Some demo_source) demo_session empty_project).2.

(** A source that ends ten frames into the segment of [demo_session]. *)
Definition short_source : @VideoFile nat :=
  {| vf_fps := 30; vf_frames := seq 0 160 |}.


(** Two segment folders, the second with a [metadata.json] that is not
    JSON. *)
Definition unreadable_metadata : @ProjectDirs nat :=
  {| segments_videos := ∅;
     segments_frames := Some
       {[ "a_segment_1" := Folder {[ "frame_0001.jpg" := Image 1%nat ]};
          "b_segment_1" := Folder {[ "frame_0001.jpg" := Image 2%nat;
                                     "metadata.json" := Blob ]} ]};
     unified_dataset_dir := None |}.

(** * Properties *)

(** ** Conversions between floats and ints *)









(** ** Strings *)

Lemma chars_app (a b : string) : chars (a +:+ b) = chars a ++ chars b.
Proof. unfold chars. induction a as [|c a IH]; simpl; [done|]. by rewrite IH. Qed.

Lemma chars_inj (a b : string) : chars a = chars b → a = b.
Proof.
  intros H.
  rewrite <- (string_of_list_ascii_of_string a), <- (string_of_list_ascii_of_string b).
  unfold chars in H. by rewrite H.
Qed.

Lemma string_app_inv_tail (a b c : string) : a +:+ c = b +:+ c → a = b.
Proof.
  intros H. apply chars_inj. apply (f_equal chars) in H.
  rewrite !chars_app in H. by apply app_inv_tail in H.
Qed.

(** ** Zero-padded decimal fields *)

Lemma parse_decimal_zeros (k : nat) (s : string) :
  parse_decimal (zeros k +:+ s) = parse_decimal s.
Proof.
  unfold parse_decimal. induction k as [|k IH]; [done|].
  rewrite <- IH. simpl.
  by destruct (NilEmpty.uint_of_string (zeros k +:+ s)).
Qed.

Lemma parse_decimal_str_N (n : N) : parse_decimal (str_N n) = Some n.
Proof.
  unfold parse_decimal, str_N, NilZero.string_of_uint.
  assert (Hd : NilEmpty.uint_of_string (NilEmpty.string_of_uint (N.to_uint n))
               = Some (N.to_uint n)) by apply NilEmpty.usu.
  destruct (N.to_uint n) as [|d|d|d|d|d|d|d|d|d|d] eqn:E.
  { destruct n as [|p]; [done|]. simpl in E.
    by apply DecimalPos.Unsigned.to_uint_nonnil in E. }
  all: rewrite Hd, <- E; simpl; by rewrite DecimalN.Unsigned.of_to.
Qed.

(** A padded field determines the number printed in it. *)
Lemma parse_decimal_format_0d (W : nat) (n : Z) :
  0 <= n → parse_decimal (format_0d W n) = Some (Z.to_N n).
Proof.
  intros Hn. unfold format_0d.
  assert ((n <? 0) = false) as -> by lia.
  change (parse_decimal
            (zeros (W - String.length "" - String.length (str_N (Z.abs_N n)))
             +:+ str_N (Z.abs_N n)) = Some (Z.to_N n)).
  rewrite parse_decimal_zeros, parse_decimal_str_N. f_equal. lia.
Qed.


Lemma below_by_cases (P : Z → bool) (bound : nat) :
  forallb (λ k, P (Z.of_nat k)) (seq 0 bound) = true →
  ∀ n, 0 <= n < Z.of_nat bound → P n = true.
Proof.
  intros Hall n Hn. rewrite forallb_forall in Hall.
  rewrite <- (Z2Nat.id n) by lia. apply Hall, in_seq. lia.
Qed.


Lemma format_0d_4_small (n : Z) : 0 <= n < 10000 → format_0d 4 n = four_digits n.
Proof.
  intros Hn.
  apply String.eqb_eq.
  apply (below_by_cases (λ n, String.eqb (format_0d 4 n) (four_digits n))
           (Z.to_nat 10000)); [by vm_compute|lia].
Qed.

(** ** [format_time] *)




(** ** Segment ledger *)

Lemma Qle_bool_false (x y : Q) : Qle_bool x y = false ↔ ¬ (x <= y)%Q.
Proof. rewrite <- Qle_bool_iff. by destruct (Qle_bool x y). Qed.



(** C8, as amended. With at least one segment in the list, [clear_all_segments]
    empties the list and clears the pending mark without a notice. With an
    empty list it only shows the notice "No segments to clear!": every
    other field, the pending mark included, keeps its value. *)
Theorem clear_all_segments_spec (st : Annotator) :
  (segments st ≠ [] →
     segments (clear_all_segments st) = []
     ∧ temp_start_time (clear_all_segments st) = None
     ∧ notices (clear_all_segments st) = notices st)
  ∧ (segments st = [] →
     clear_all_segments st = notify (showinfo "Info" "No segments to clear!") st
     ∧ segments (clear_all_segments st) = []
     ∧ temp_start_time (clear_all_segments st) = temp_start_time st).
Proof.
  unfold clear_all_segments. split.
  - by destruct (segments st).
  - intros H. by rewrite H.
Qed.

Lemma clear_all_segments_spec_witness :
  (segments (clear_all_segments (mark_end demo_marked_at_10s)) = []
   ∧ temp_start_time (clear_all_segments (mark_end demo_marked_at_10s)) = None)
  ∧ temp_start_time (clear_all_segments demo_marked) = temp_start_time demo_marked.
Proof.
  split.
  - pose proof (proj1 (clear_all_segments_spec (mark_end demo_marked_at_10s))) as H.
    split; apply H; vm_compute; discriminate.
  - apply (proj2 (clear_all_segments_spec demo_marked)). reflexivity.
Defined.

(** C8, as stated, fails: with a start marked and no segment in the list,
    [clear_all_segments] leaves the pending mark in place. *)
Lemma clear_all_segments_keeps_pending_mark :
  segments demo_marked = []
  ∧ temp_start_time demo_marked = Some (150 # 30)%Q
  ∧ temp_start_time (clear_all_segments demo_marked) = Some (150 # 30)%Q
  ∧ temp_start_time (clear_all_segments demo_marked) ≠ None.
Proof. split_and!; [reflexivity..|]. vm_compute. discriminate. Qed.


(** ** Seeking *)











(** ** Loading videos *)

Lemma endswith_has_suffix (name ext : string) :
  endswith name ext = true ↔ has_suffix name ext.
Proof.
  unfold endswith, has_suffix. rewrite bool_decide_eq_true. split.
  - intros [k Hk]. exists (string_of_list_ascii k).
    apply chars_inj. rewrite chars_app. unfold chars at 2.
    by rewrite list_ascii_of_string_of_list_ascii.
  - intros [stem ->]. exists (chars stem). apply chars_app.
Qed.

Lemma startswith_dot_hidden (name : string) :
  startswith name "." = true ↔ hidden name.
Proof.
  unfold startswith, hidden. rewrite bool_decide_eq_true. split.
  - intros [k Hk]. destruct name as [|c rest]; [done|].
    simpl in Hk. injection Hk as -> _. by exists rest.
  - intros [rest ->]. by exists (chars rest).
Qed.

(** What [update_video_display] leaves alone. *)
Lemma update_video_display_frame (st : Annotator) :
  video_files (update_video_display st) = video_files st
  ∧ current_video_path (update_video_display st) = current_video_path st
  ∧ cap (update_video_display st) = cap st
  ∧ current_frame (update_video_display st) = current_frame st
  ∧ is_playing (update_video_display st) = is_playing st
  ∧ segments (update_video_display st) = segments st
  ∧ temp_start_time (update_video_display st) = temp_start_time st.
Proof.
  unfold update_video_display. destruct (cap st) eqn:Hcap; [|done].
  simpl. by rewrite Hcap.
Qed.

Ltac after_display :=
  match goal with
  | |- context [update_video_display ?s] =>
      let E1 := fresh in let E2 := fresh in let E3 := fresh in let E4 := fresh in
      let E5 := fresh in let E6 := fresh in let E7 := fresh in
      destruct (update_video_display_frame s) as (E1 & E2 & E3 & E4 & E5 & E6 & E7);
      rewrite ?E1, ?E2, ?E3, ?E4, ?E5, ?E6, ?E7;
      clear E1 E2 E3 E4 E5 E6 E7
  end.

Lemma video_files_load_current_video (videos : VideosDir) (st : Annotator) :
  video_files (load_current_video videos st).2 = video_files st.
Proof.
  unfold load_current_video.
  destruct (video_files st) as [|f fs] eqn:Hfiles; [done|].
  destruct (_ !! _) as [path|]; [|done].
  destruct (cap_props _) as [props|]; [|done].
  cbn [snd]. by after_display.
Qed.

Lemma video_files_load_videos (videos : VideosDir) (st : Annotator) :
  video_files (load_videos videos st).2 = sort_names (found_videos videos).
Proof.
  unfold load_videos.
  destruct (found_videos videos) as [|f fs] eqn:Hfound; [done|].
  by rewrite video_files_load_current_video.
Qed.

Lemma elem_of_found_videos (videos : VideosDir) (name : string) :
  name ∈ found_videos videos ↔
    name ∈ dom videos ∧ startswith name "." = false
    ∧ ∃ ext, ext ∈ video_extensions ∧ endswith name ext = true.
Proof.
  unfold found_videos. rewrite list_elem_of_In, in_concat. split.
  - intros (l & Hl & Hin). apply in_map_iff in Hl as (ext & <- & Hext).
    apply list_elem_of_In in Hin. unfold visible_matches, glob_star in Hin.
    rewrite !list_elem_of_filter in Hin. destruct Hin as (Hvis & Hend & Hname).
    split_and!; [|done|].
    + apply elem_of_dom. apply list_elem_of_fmap in Hname as ([k v] & -> & Hkv).
      apply elem_of_map_to_list in Hkv. by exists v.
    + exists ext. by rewrite list_elem_of_In.
  - intros (Hdom & Hvis & ext & Hext & Hend).
    exists (visible_matches ext (map_to_list videos).*1). split.
    + apply in_map_iff. exists ext. by rewrite <- list_elem_of_In.
    + apply list_elem_of_In. unfold visible_matches, glob_star.
      rewrite !list_elem_of_filter. split_and!; [done..|].
      apply elem_of_dom in Hdom as [v Hv].
      apply list_elem_of_fmap. exists (name, v). split; [done|].
      by apply elem_of_map_to_list.
Qed.

(** C10. After [load_videos], [video_files] holds exactly the names of
    the folder that do not begin with a dot and end with [.mp4], [.avi],
    [.mov] or [.MOV]; a name that begins with a dot is never in it,
    whatever its extension; and the list is sorted: every name is at most
    every name after it. *)
Theorem load_videos_listing (videos : VideosDir) (st : Annotator) :
  let files := video_files (load_videos videos st).2 in
  (∀ name, name ∈ files ↔
      name ∈ dom videos ∧ ¬ hidden name
      ∧ (has_suffix name ".mp4" ∨ has_suffix name ".avi"
         ∨ has_suffix name ".mov" ∨ has_suffix name ".MOV"))
  ∧ (∀ name, hidden name → name ∉ files)
  ∧ StronglySorted String.le files.
Proof.
  intros files. unfold files. rewrite video_files_load_videos.
  assert (Hmem : ∀ name, name ∈ sort_names (found_videos videos) ↔
      name ∈ dom videos ∧ ¬ hidden name
      ∧ (has_suffix name ".mp4" ∨ has_suffix name ".avi"
         ∨ has_suffix name ".mov" ∨ has_suffix name ".MOV")).
  { intros name. unfold sort_names. rewrite merge_sort_Permutation.
    rewrite elem_of_found_videos, <- startswith_dot_hidden, <- !endswith_has_suffix.
    rewrite not_true_iff_false. unfold video_extensions.
    split.
    - intros (? & ? & ext & Hext & Hend). split_and!; [done..|].
      repeat (apply elem_of_cons in Hext as [->|Hext]; [by auto|]).
      by apply elem_of_nil in Hext.
    - intros (Hd & Hv & Hext). split_and!; [done..|].
      destruct Hext as [He|[He|[He|He]]]; eexists; (split; [|exact He]);
        repeat first [by apply list_elem_of_here | apply list_elem_of_further]. }
  split_and!; [done| |].
  - intros name Hhidden Hin. apply Hmem in Hin. by destruct Hin as (_ & Hvis & _).
  - apply StronglySorted_merge_sort; apply _.
Qed.

Lemma load_videos_listing_witness :
  video_files (load_videos demo_videos init).2 = ["a.mov"; "b.mp4"; "broken.avi"]
  ∧ ".hidden.mp4" ∈ dom demo_videos
  ∧ ".hidden.mp4" ∉ video_files (load_videos demo_videos init).2.
Proof.
  split_and!.
  - by vm_compute.
  - by apply elem_of_dom.
  - apply (proj1 (proj2 (load_videos_listing demo_videos init))).
    by exists "hidden.mp4"%string.
Defined.

Lemma load_current_video_resets (videos : VideosDir) (st st' : Annotator) :
  load_current_video videos st = (Loaded, st') →
  current_frame st' = 0 ∧ is_playing st' = false
  ∧ segments st' = [] ∧ temp_start_time st' = None
  ∧ ∃ path props,
      video_files st' !! current_video_index st = Some path
      ∧ videos !! path = Some (Some props)
      ∧ current_video_path st' = Some path
      ∧ cap st' = Some {| cap_path := path; cap_props := Some props |}.
Proof.
  unfold load_current_video.
  destruct (video_files st) as [|f fs] eqn:Hfiles; [done|].
  destruct (_ !! _) as [path|] eqn:Hpath; [|done].
  destruct (cap_props _) as [props|] eqn:Hprops; [|done].
  intros [= <-]. after_display. split_and!; [done..|].
  exists path, props. simpl. rewrite Hfiles. split_and!; [done| |done|].
  - simpl in Hprops. by destruct (videos !! path) as [[?|]|]; simplify_eq/=.
  - unfold VideoCapture. by rewrite <- Hprops.
Qed.

(** A load succeeds exactly when the file at the current index opens. *)
Lemma load_current_video_loaded (videos : VideosDir) (st : Annotator) :
  (load_current_video videos st).1 = Loaded ↔
  ∃ path props,
    video_files st !! current_video_index st = Some path
    ∧ videos !! path = Some (Some props).
Proof.
  unfold load_current_video. split.
  - destruct (video_files st) as [|f fs] eqn:Hfiles; [done|].
    destruct (_ !! _) as [path|] eqn:Hpath; [|done].
    destruct (cap_props _) as [props|] eqn:Hprops; [|done].
    intros _. exists path, props. split; [done|].
    simpl in Hprops. by destruct (videos !! path) as [[?|]|]; simplify_eq/=.
  - intros (path & props & Hpath & Hopen).
    destruct (video_files st) as [|f fs] eqn:Hfiles; [done|].
    rewrite Hpath. simpl. by rewrite Hopen.
Qed.

(** C9. Whenever [load_current_video] loads a video, called directly or
    through [load_videos], [previous_video] or [next_video], the current
    frame is 0, playback is paused, the segment list is empty and no
    start is pending. (The loaders return nothing but the annotator
    state: the old segment list is written nowhere.) *)
Theorem loading_resets_state (videos : VideosDir) (st st' : Annotator) :
  load_current_video videos st = (Loaded, st')
  ∨ load_videos videos st = (Loaded, st')
  ∨ previous_video videos st = (Loaded, st')
  ∨ next_video videos st = (Loaded, st') →
  current_frame st' = 0 ∧ is_playing st' = false
  ∧ segments st' = [] ∧ temp_start_time st' = None.
Proof.
  intros [H|[H|[H|H]]].
  - apply load_current_video_resets in H. by destruct H as (? & ? & ? & ? & _).
  - unfold load_videos in H. destruct (found_videos _); [done|].
    apply load_current_video_resets in H. by destruct H as (? & ? & ? & ? & _).
  - unfold previous_video in H. destruct (video_files st); [done|].
    destruct (_ <? _)%nat; [|done].
    apply load_current_video_resets in H. by destruct H as (? & ? & ? & ? & _).
  - unfold next_video in H. destruct (video_files st); [done|].
    destruct (_ <? _)%Z; [|done].
    apply load_current_video_resets in H. by destruct H as (? & ? & ? & ? & _).
Qed.

Lemma loading_resets_state_witness :
  (current_frame demo_busy = 300 ∧ is_playing demo_busy = true
   ∧ segments demo_busy = [((150 # 30)%Q, (300 # 30)%Q)]
   ∧ temp_start_time demo_busy = Some (300 # 30)%Q)
  ∧ (next_video demo_videos demo_busy).1 = Loaded
  ∧ current_video_path (next_video demo_videos demo_busy).2 = Some "b.mp4"%string
  ∧ current_frame (next_video demo_videos demo_busy).2 = 0
  ∧ is_playing (next_video demo_videos demo_busy).2 = false
  ∧ segments (next_video demo_videos demo_busy).2 = []
  ∧ temp_start_time (next_video demo_videos demo_busy).2 = None.
Proof.
  split; [by vm_compute|]. split; [by vm_compute|]. split; [by vm_compute|].
  apply (loading_resets_state demo_videos demo_busy).
  right. right. right. by vm_compute.
Defined.

(** ** Segment exporter *)

Lemma frame_name_inj (i j : nat) : frame_name i = frame_name j → i = j.
Proof.
  unfold frame_name. intros H.
  apply String.app_inj in H. apply string_app_inv_tail in H.
  apply (f_equal parse_decimal) in H.
  rewrite !parse_decimal_format_0d in H by lia.
  injection H as H. lia.
Qed.


Section ExporterFacts.
Context {Frame : Type}.



(** The write loop numbers the frames from [k + 1] on, one file each. *)
Lemma write_frames_spec (clip : list Frame) (k : nat) (dir : gmap string (@File Frame)) :
  (write_frames clip k dir).1 = (k + length clip)%nat
  ∧ (∀ i frame, clip !! i = Some frame →
       (write_frames clip k dir).2 !! frame_name (k + i) = Some (Image frame))
  ∧ (∀ name, (∀ i, (i < length clip)%nat → name ≠ frame_name (k + i)) →
       (write_frames clip k dir).2 !! name = dir !! name).
Proof.
  revert k dir. induction clip as [|frame rest IH]; intros k dir; simpl.
  - split_and!; [lia|done|done].
  - destruct (IH (S k) (<[frame_name k := Image frame]> dir)) as (Hn & Hwritten & Hother).
    split_and!.
    + lia.
    + intros [|i] f Hf; simplify_eq/=.
      * rewrite Hother.
        -- rewrite Nat.add_0_r. apply lookup_insert_eq.
        -- intros i _ Heq. apply frame_name_inj in Heq. lia.
      * replace (k + S i)%nat with (S k + i)%nat by lia. by apply Hwritten.
    + intros name Hname. rewrite Hother.
      * apply lookup_insert_ne. intros Heq. apply (Hname 0%nat); [lia|].
        by rewrite Nat.add_0_r.
      * intros i Hi. replace (S k + i)%nat with (k + S i)%nat by lia.
        apply Hname. lia.
Qed.

End ExporterFacts.

Section ExportClaim.
Context {Frame : Type}.
Variable mp4v : Q → list Frame → option (@VideoFile Frame).

End ExportClaim.

(** ** Dataset unifier *)

Section UnifierFacts.
Context {Frame : Type}.
Variables copy2_succeeds copy_succeeds : string → string → bool.
Variable timestamp : string.

Lemma frame_files_present (files : gmap string (@File Frame)) (name : string) :
  name ∈ frame_files files → is_Some (files !! name).
Proof.
  unfold frame_files, sort_names. rewrite merge_sort_Permutation.
  rewrite list_elem_of_filter. intros [_ Hin].
  apply list_elem_of_fmap in Hin as ([k v] & -> & Hkv).
  apply elem_of_map_to_list in Hkv. by exists v.
Qed.

Lemma copy_frames_spec (segment : string) (files : gmap string (@File Frame))
    (todo : list string) (imgs : gmap string (@File Frame)) (n t : nat) :
  (∀ name, name ∈ todo → is_Some (files !! name)) →
  let landed := filter (λ name, copy_lands copy2_succeeds copy_succeeds segment name = true) todo in
  let r := copy_frames copy2_succeeds copy_succeeds segment files todo imgs n t in
  r.1.2 = (n + length landed)%nat
  ∧ r.2 = (t + length landed)%nat
  ∧ ∀ name, is_Some (r.1.1 !! name) ↔
      is_Some (imgs !! name)
      ∨ ∃ frame, frame ∈ landed ∧ name = unified_name (segment, frame).
Proof.
  revert imgs n t. induction todo as [|frame rest IH]; intros imgs n t Hpresent; simpl.
  - split_and!; [lia|lia|]. intros name. split; [by left|].
    intros [?|(frame & Hin & _)]; [done|]. by apply elem_of_nil in Hin.
  - destruct (Hpresent frame) as [file Hfile]; [by left|]. rewrite Hfile.
    assert (Hrest : ∀ name, name ∈ rest → is_Some (files !! name))
      by (intros name Hin; apply Hpresent; by right).
    destruct (copy2_succeeds segment frame) eqn:H2;
      [|destruct (copy_succeeds segment frame) eqn:H1].
    1,2: rewrite filter_cons_True by (unfold copy_lands; rewrite H2, ?H1; done);
         destruct (IH (<[segment +:+ "_" +:+ frame := file]> imgs) (S n) (S t) Hrest)
           as (Hn & Ht & Himgs);
         split_and!; [simpl; lia|simpl; lia|];
         intros name; rewrite Himgs; split;
         [ intros [Hsome|(f & Hin & ->)];
           [ destruct (decide (segment +:+ "_" +:+ frame = name)) as [<-|Hne];
             [ right; exists frame; split; [by left|done]
             | left; by rewrite lookup_insert_ne in Hsome ]
           | right; exists f; split; [by right|done] ]
         | intros [Hsome|(f & Hin & ->)];
           [ destruct (decide (segment +:+ "_" +:+ frame = name)) as [<-|Hne];
             [ left; by rewrite lookup_insert_eq
             | left; by rewrite lookup_insert_ne ]
           | apply elem_of_cons in Hin as [->|Hin];
             [ left; unfold unified_name; simpl; by rewrite lookup_insert_eq
             | right; by exists f ] ] ].
    rewrite filter_cons_False by (unfold copy_lands; rewrite H2, H1; done).
    apply (IH imgs n t Hrest).
Qed.

Lemma process_folder_spec (frames : gmap string (@Entry Frame)) (segment : string)
    (w w' : @Progress Frame) :
  process_folder copy2_succeeds copy_succeeds frames segment w = Some w' →
  total_frames_copied w'
    = (total_frames_copied w + length (copied_frames copy2_succeeds copy_succeeds frames segment))%nat
  ∧ (∃ info, summary_segments w' = summary_segments w ++ [info]
       ∧ Summary.segment_name info = segment ∧ counted copy2_succeeds copy_succeeds frames info)
  ∧ ∀ name, is_Some (dataset_images w' !! name) ↔
      is_Some (dataset_images w !! name)
      ∨ ∃ frame, frame ∈ copied_frames copy2_succeeds copy_succeeds frames segment
                 ∧ name = unified_name (segment, frame).
Proof.
  unfold process_folder.
  destruct (take_metadata _ _ _ _) as [[meta dm]|]; [|done].
  pose proof (copy_frames_spec segment (folder_files frames segment)
    (frame_files (folder_files frames segment)) (dataset_images w) 0
    (total_frames_copied w) (frame_files_present _)) as Hcopy.
  simpl in Hcopy. fold (copied_frames copy2_succeeds copy_succeeds frames segment) in Hcopy.
  destruct (copy_frames _ _ _ _ _ _ _ _) as [[imgs' n'] t'].
  simpl in Hcopy. destruct Hcopy as (-> & -> & Himgs).
  intros [= <-]. simpl. split_and!; [done| |done].
  eexists. split; [done|]. by split.
Qed.

Lemma process_folders_spec (frames : gmap string (@Entry Frame)) (todo : list string)
    (w w' : @Progress Frame) :
  process_folders copy2_succeeds copy_succeeds frames todo w = (true, w') →
  total_frames_copied w'
    = (total_frames_copied w + length (copies_of copy2_succeeds copy_succeeds frames todo))%nat
  ∧ Summary.segment_name <$> summary_segments w'
    = (Summary.segment_name <$> summary_segments w) ++ todo
  ∧ (Forall (counted copy2_succeeds copy_succeeds frames) (summary_segments w) →
     Forall (counted copy2_succeeds copy_succeeds frames) (summary_segments w'))
  ∧ ∀ name, is_Some (dataset_images w' !! name) ↔
      is_Some (dataset_images w !! name)
      ∨ ∃ copy, copy ∈ copies_of copy2_succeeds copy_succeeds frames todo ∧ name = unified_name copy.
Proof.
  revert w. induction todo as [|segment rest IH]; intros w; simpl.
  - intros [= <-]. split_and!; [unfold copies_of; simpl; lia|by rewrite app_nil_r|done|].
    intros name. split; [by left|]. intros [?|(copy & Hin & _)]; [done|].
    by apply elem_of_nil in Hin.
  - destruct (process_folder _ _ _ _ _) as [w1|] eqn:Hstep; [|done].
    intros Hrest. apply IH in Hrest as (Ht & Hnames & Hcounted & Himgs).
    apply process_folder_spec in Hstep as (Ht1 & (info & Hinfo & Hname & Hcount) & Himgs1).
    unfold copies_of in *. simpl. split_and!.
    + rewrite Ht, Ht1, length_app, length_map. lia.
    + rewrite Hnames, Hinfo, fmap_app. simpl. rewrite Hname. by rewrite <- app_assoc.
    + intros Hw. apply Hcounted. rewrite Hinfo. apply Forall_app. split; [done|].
      by apply Forall_singleton.
    + intros name. rewrite Himgs, Himgs1. split.
      * intros [[Hsome|(frame & Hin & ->)]|(copy & Hin & ->)].
        -- by left.
        -- right. exists (segment, frame). split; [|done].
           apply elem_of_app. left. apply list_elem_of_fmap. by exists frame.
        -- right. exists copy. split; [|done]. apply elem_of_app. by right.
      * intros [Hsome|(copy & Hin & ->)]; [by left; left|].
        apply elem_of_app in Hin as [Hin|Hin].
        -- apply list_elem_of_fmap in Hin as (frame & -> & Hin).
           left. right. by exists frame.
        -- right. by exists copy.
Qed.
End UnifierFacts.

Lemma filter_all {A} (P : A → Prop) `{∀ x, Decision (P x)} (l : list A) :
  (∀ x, P x) → filter P l = l.
Proof.
  intros HP. induction l as [|x l IH]; [done|].
  rewrite filter_cons_True by done. by rewrite IH.
Qed.

Lemma filter_none {A} (P : A → Prop) `{∀ x, Decision (P x)} (l : list A) :
  (∀ x, x ∈ l → ¬ P x) → filter P l = [].
Proof.
  induction l as [|x l IH]; intros HP; [done|].
  rewrite filter_cons_False by (apply HP; by left).
  apply IH. intros y Hy. apply HP. by right.
Qed.

Section UnifierClaims.
Context {Frame : Type}.
Variables copy2_succeeds copy_succeeds : string → string → bool.
Variable timestamp : string.

Lemma length_segment_folders (frames : gmap string (@Entry Frame)) :
  length (segment_folders frames)
  = length (filter (λ e, is_dir e.2 = true) (map_to_list frames)).
Proof.
  unfold segment_folders, sort_names.
  by rewrite merge_sort_Permutation, length_fmap.
Qed.

Lemma images_make_unified_dirs (p : @ProjectDirs Frame) :
  default ∅ (images (make_unified_dirs (unified_dataset_dir p))) = images_before p.
Proof.
  unfold images_before, make_unified_dirs.
  destruct (unified_dataset_dir p) as [u|]; [|done].
  simpl. by destruct (images u).
Qed.

(** C2. After a run of [create_unified_dataset] that reaches its end, the
    summary written to [dataset_summary.json] has [total_frames] equal to
    the number of frames whose copy into the images directory succeeded
    and [total_segments] equal to the number of subfolders of the frames
    directory; its entries are the subfolders in sorted order, every one
    of them, each with the count of its own successful copies (0 for a
    folder that contributed none). The images directory holds what it
    held before and, for every successful copy, a file named
    [<folder>_<frame>]. In particular, with the two folders
    [a_segment_1] of 3 frames and [b_segment_1] of 2 frames and no
    failing copy, [total_frames] is 5 and [total_segments] is 2. *)
Theorem unified_dataset_summary (p p' : @ProjectDirs Frame) (notes : list Notice) :
  create_unified_dataset copy2_succeeds copy_succeeds timestamp p = (Unified, p', notes) →
  ∃ frames u imgs summary,
    segments_frames p = Some frames
    ∧ unified_dataset_dir p' = Some u
    ∧ images u = Some imgs
    ∧ dataset_summary_json u = Some summary
    ∧ Summary.total_frames summary
      = length (successfully_copied copy2_succeeds copy_succeeds frames)
    ∧ Summary.total_segments summary
      = length (filter (λ e, is_dir e.2 = true) (map_to_list frames))
    ∧ Summary.segment_name <$> Summary.segments summary = segment_folders frames
    ∧ Forall (counted copy2_succeeds copy_succeeds frames) (Summary.segments summary)
    ∧ (∀ name, is_Some (imgs !! name) ↔
         is_Some (images_before p !! name)
         ∨ ∃ copy, copy ∈ successfully_copied copy2_succeeds copy_succeeds frames
                   ∧ name = unified_name copy)
    ∧ (∀ fa fb,
         frames = {[ "a_segment_1" := Folder fa; "b_segment_1" := Folder fb ]} →
         length (frame_files fa) = 3%nat → length (frame_files fb) = 2%nat →
         (∀ segment name, copy2_succeeds segment name = true) →
         Summary.total_frames summary = 5%nat
         ∧ Summary.total_segments summary = 2%nat
         ∧ successfully_copied copy2_succeeds copy_succeeds frames
           = (pair "a_segment_1" <$> frame_files fa)
             ++ (pair "b_segment_1" <$> frame_files fb)).
Proof.
  unfold create_unified_dataset.
  destruct (segments_frames p) as [frames|] eqn:Hframes; [|done].
  case_decide as Hnonempty; [done|].
  destruct (segment_folders frames) as [|folder folders] eqn:Hfolders; [done|].
  destruct (process_folders _ _ _ _ _) as [[|] w] eqn:Hrun; [|done].
  intros [= <- <-].
  apply process_folders_spec in Hrun as (Htotal & Hnames & Hcounted & Himgs).
  simpl in Htotal, Hnames, Hcounted, Himgs.
  rewrite images_make_unified_dirs in Himgs.
  assert (Hsum : total_frames_copied w
                 = length (successfully_copied copy2_succeeds copy_succeeds frames))
    by (unfold successfully_copied; by rewrite Hfolders).
  assert (Hsegs : length (folder :: folders)
                  = length (filter (λ e, is_dir e.2 = true) (map_to_list frames)))
    by (by rewrite <- Hfolders, length_segment_folders).
  eexists frames, _, (dataset_images w), _. simpl.
  split_and!; [done|done|done|done|exact Hsum|exact Hsegs
              |by rewrite Hfolders|by apply Hcounted| |].
  - intros name. rewrite Himgs. unfold successfully_copied. by rewrite Hfolders.
  - intros fa fb -> Hfa Hfb Hall.
    assert (Hsorted : segment_folders
              ({[ "a_segment_1" := Folder fa; "b_segment_1" := Folder fb ]}
                 : gmap string (@Entry Frame))
              = ["a_segment_1"; "b_segment_1"]) by by vm_compute.
    assert (Hcopies :
      successfully_copied copy2_succeeds copy_succeeds
        ({[ "a_segment_1" := Folder fa; "b_segment_1" := Folder fb ]}
           : gmap string (@Entry Frame))
      = (pair "a_segment_1" <$> frame_files fa)
        ++ (pair "b_segment_1" <$> frame_files fb)).
    { unfold successfully_copied, copies_of, copied_frames. rewrite Hsorted. simpl.
      rewrite app_nil_r.
      rewrite !filter_all by (intros name; unfold copy_lands; by rewrite Hall).
      f_equal. }
    assert (Htwo : length (folder :: folders) = 2%nat)
      by (by rewrite <- Hfolders, Hsorted).
    split_and!; [|exact Htwo|done].
    rewrite Hsum, Hcopies, length_app, !length_fmap. simpl. lia.
Qed.

(** The first guard: without a frames directory, or with an empty one,
    the warning is shown and the project is left as it was. *)
Lemma create_unified_dataset_no_frames (p : @ProjectDirs Frame) :
  segments_frames p = None ∨ segments_frames p = Some ∅ →
  create_unified_dataset copy2_succeeds copy_succeeds timestamp p
  = (NoFramesFound, p, [no_frames_warning]).
Proof.
  unfold create_unified_dataset. intros [->| ->]; [done|].
  by rewrite map_to_list_empty.
Qed.

(** The second guard comes after the three [mkdir] calls: a frames
    directory with entries but without a subfolder leaves the
    directories of the unified dataset behind. *)
Lemma create_unified_dataset_no_folders (p : @ProjectDirs Frame)
    (frames : gmap string (@Entry Frame)) :
  segments_frames p = Some frames →
  frames ≠ ∅ →
  (∀ name e, frames !! name = Some e → is_dir e = false) →
  create_unified_dataset copy2_succeeds copy_succeeds timestamp p
  = (NoSegmentFolders,
     {| segments_videos := segments_videos p;
        segments_frames := segments_frames p;
        unified_dataset_dir := Some (make_unified_dirs (unified_dataset_dir p)) |},
     [no_folders_warning]).
Proof.
  intros Hframes Hne Hfiles. unfold create_unified_dataset. rewrite Hframes.
  case_decide as Hlist; [by apply map_to_list_empty_iff in Hlist|].
  assert (segment_folders frames = []) as ->; [|done].
  unfold segment_folders.
  assert (filter (λ e, is_dir e.2 = true) (map_to_list frames) = []) as ->; [|done].
  apply filter_none. intros [name e] Hin Hdir.
  apply elem_of_map_to_list in Hin.
  simpl in Hdir. by rewrite (Hfiles name e Hin) in Hdir.
Qed.

(** C3, the failing input. With a frames directory that holds one plain
    file and no subfolder, and no unified dataset yet, the run passes the
    first guard, creates [unified_dataset], [images] and [metadata], and
    only then shows the warning of the second guard and returns. *)
Theorem create_unified_dataset_stray_file :
  unified_dataset_dir (@stray_file_project Frame) = None
  ∧ create_unified_dataset copy2_succeeds copy_succeeds timestamp
      (@stray_file_project Frame)
    = (NoSegmentFolders,
       {| segments_videos := ∅;
          segments_frames := Some {[ ".DS_Store" := RegularFile Blob ]};
          unified_dataset_dir :=
            Some {| images := Some ∅; metadata := Some ∅;
                    dataset_summary_json := None; frame_list_txt := None |} |},
       [no_folders_warning]).
Proof.
  split; [done|].
  rewrite (create_unified_dataset_no_folders stray_file_project
             {[ ".DS_Store" := RegularFile (@Blob Frame) ]}); [done|done| |].
  - apply insert_non_empty.
  - intros name e Hlookup. apply lookup_singleton_Some in Hlookup as [_ <-]. done.
Qed.
End UnifierClaims.


Lemma unified_dataset_summary_witness :
  (create_unified_dataset always always "2024-05-01 12:00:00" two_segments).1.1 = Unified
  ∧ ∃ u summary,
      unified_dataset_dir
        (create_unified_dataset always always "2024-05-01 12:00:00" two_segments).1.2
      = Some u
      ∧ dataset_summary_json u = Some summary
      ∧ Summary.total_frames summary = 5%nat
      ∧ Summary.total_segments summary = 2%nat.
Proof.
  assert (Hrun : create_unified_dataset always always "2024-05-01 12:00:00" two_segments
     = (Unified,
        (create_unified_dataset always always "2024-05-01 12:00:00" two_segments).1.2,
        (create_unified_dataset always always "2024-05-01 12:00:00" two_segments).2)).
  { vm_compute. reflexivity. }
  split; [vm_compute; reflexivity|].
  destruct (unified_dataset_summary always always "2024-05-01 12:00:00"
              two_segments _ _ Hrun)
    as (frames & u & imgs & summary & Hf & Hu & _ & Hs & _ & _ & _ & _ & _ & Hpart).
  exists u, summary. split; [exact Hu|]. split; [exact Hs|].
  assert (Hfr : frames = {[ "a_segment_1" := Folder {[ "frame_0001.jpg" := Image 1%nat;
                     "frame_0002.jpg" := Image 2%nat;
                     "frame_0003.jpg" := Image 3%nat;
                     "metadata.json" := JsonFile [] ]};
                 "b_segment_1" := Folder {[ "frame_0001.jpg" := Image 4%nat;
                     "frame_0002.jpg" := Image 5%nat ]} ]}).
  { unfold two_segments in Hf. simpl in Hf. congruence. }
  destruct (Hpart _ _ Hfr) as (Htotal & Hsegments & _).
  - vm_compute. reflexivity.
  - vm_compute. reflexivity.
  - reflexivity.
  - split; assumption.
Defined.

(** * Further properties *)

(** ** The controls and the states they reach *)

(** What [update_video_display] leaves alone, continued. *)
Lemma update_video_display_rest (st : Annotator) :
  current_video_index (update_video_display st) = current_video_index st
  ∧ total_frames (update_video_display st) = total_frames st
  ∧ fps (update_video_display st) = fps st
  ∧ notices (update_video_display st) = notices st.
Proof.
  unfold update_video_display. destruct (cap st) eqn:Hcap; done.
Qed.

Ltac after_display' :=
  repeat match goal with
  | |- context [update_video_display ?s] =>
      let E1 := fresh in let E2 := fresh in let E3 := fresh in let E4 := fresh in
      destruct (update_video_display_rest s) as (E1 & E2 & E3 & E4);
      rewrite ?E1, ?E2, ?E3, ?E4; clear E1 E2 E3 E4;
      try after_display
  end.

Lemma segments_load_current_video (videos : VideosDir) (st : Annotator) :
  segments (load_current_video videos st).2 = segments st
  ∨ segments (load_current_video videos st).2 = [].
Proof.
  unfold load_current_video.
  destruct (video_files st) as [|f fs]; [by left|].
  destruct (_ !! _) as [path|]; [|by left].
  destruct (cap_props _) as [props|]; [|by left].
  right. cbn [snd]. by after_display.
Qed.

(** What one event can do to the ledger. *)
Lemma segments_handle (videos : VideosDir) (ev : Event) (st : Annotator) :
  segments (handle videos ev st) = segments st
  ∨ segments (handle videos ev st) = []
  ∨ segments (handle videos ev st) = removelast (segments st)
  ∨ ∃ start, temp_start_time st = Some start
      ∧ ¬ (current_time st <= start)%Q
      ∧ segments (handle videos ev st) = segments st ++ [(start, current_time st)].
Proof.
  destruct ev; simpl.
  - unfold previous_video. destruct (video_files st); [by left|].
    destruct (_ <? _)%nat; [|by left].
    destruct (segments_load_current_video videos
                (set_current_video_index (current_video_index st - 1) st)); auto.
  - unfold load_videos. destruct (found_videos videos); [by left|].
    destruct (segments_load_current_video videos
                (set_current_video_index 0
                   (set_video_files (sort_names (s :: l))
                      (set_video_files (s :: l) st)))); auto.
  - unfold next_video. destruct (video_files st); [by left|].
    destruct (_ <? _); [|by left].
    destruct (segments_load_current_video videos
                (set_current_video_index (current_video_index st + 1) st)); auto.
  - left. unfold seek_backward. by after_display.
  - by left.
  - left. unfold seek_forward. by after_display.
  - left. unfold on_progress_change. destruct (negb _); [|done]. by after_display.
  - by left.
  - unfold mark_end. destruct (temp_start_time st) as [start|] eqn:Hstart; [|by left].
    destruct (Qle_bool _ _) eqn:Hle; [by left|].
    right. right. right. exists start. split; [done|]. split; [|done].
    by apply Qle_bool_false.
  - unfold clear_last_segment. destruct (segments st) eqn:Hs; [by left|].
    right. right. by left.
  - unfold clear_all_segments. destruct (segments st) eqn:Hs; [left; exact Hs|].
    right. by left.
  - left. destruct (keeps_playing st); [|done]. unfold play_iteration. by after_display.
  - left. unfold play_exit. by destruct (_ <=? _).
  - by left.
Qed.

Lemma removelast_Forall {A} (P : A → Prop) (l : list A) :
  Forall P l → Forall P (removelast l).
Proof.
  induction 1 as [|x l Hx Hl IH]; [done|].
  simpl. destruct l; [done|]. by constructor.
Qed.

Lemma handle_ledger_ordered (videos : VideosDir) (ev : Event) (st : Annotator) :
  Forall (λ segment : Q * Q, (segment.1 < segment.2)%Q) (segments st) →
  Forall (λ segment : Q * Q, (segment.1 < segment.2)%Q) (segments (handle videos ev st)).
Proof.
  intros Hst.
  destruct (segments_handle videos ev st)
    as [-> | [-> | [-> | (start & _ & Hgt & ->)]]].
  - done.
  - constructor.
  - by apply removelast_Forall.
  - apply Forall_app. split; [done|]. apply Forall_singleton. simpl.
    by apply Qnot_le_lt.
Qed.

(** X1. In every state the application can reach, by any sequence of
    button presses, scale movements and steps of the playback loop, on
    any contents of the videos folder, every segment of the ledger has
    its start strictly before its end. *)
Theorem reachable_ledger_ordered (st : Annotator) :
  reachable st →
  Forall (λ segment : Q * Q, (segment.1 < segment.2)%Q) (segments st).
Proof.
  induction 1 as [videos|videos ev st _ IH].
  - apply (handle_ledger_ordered videos ReloadVideos init). constructor.
  - by apply handle_ledger_ordered.
Qed.

Lemma demo_session_reachable : reachable demo_session.
Proof. unfold demo_session. repeat apply reachable_step. apply reachable_start. Qed.

Lemma reachable_ledger_ordered_witness :
  Forall (λ segment : Q * Q, (segment.1 < segment.2)%Q) (segments demo_session)
  ∧ segments demo_session = [((150 # 30)%Q, (300 # 30)%Q)].
Proof.
  split.
  - exact (reachable_ledger_ordered demo_session demo_session_reachable).
  - vm_compute. reflexivity.
Defined.

Lemma index_load_current_video (videos : VideosDir) (st : Annotator) :
  current_video_index (load_current_video videos st).2 = current_video_index st.
Proof.
  unfold load_current_video.
  destruct (video_files st) as [|f fs]; [done|].
  destruct (_ !! _) as [path|]; [|done].
  destruct (cap_props _) as [props|]; [|done].
  cbn [snd]. by after_display'.
Qed.

Lemma load_current_video_index_in_range (videos : VideosDir) (st : Annotator) :
  index_in_range st → index_in_range (load_current_video videos st).2.
Proof.
  unfold index_in_range.
  by rewrite video_files_load_current_video, index_load_current_video.
Qed.

Lemma load_current_video_no_index_error (videos : VideosDir) (st : Annotator) :
  index_in_range st → (load_current_video videos st).1 ≠ IndexOutOfRange.
Proof.
  unfold index_in_range, load_current_video. intros Hrange.
  destruct (video_files st) as [|f fs] eqn:Hfiles; [done|].
  destruct Hrange as [|Hlt]; [done|].
  destruct (lookup_lt_is_Some_2 (f :: fs) (current_video_index st) Hlt) as [path ->].
  by destruct (cap_props _).
Qed.

Lemma length_sort_names (l : list string) : length (sort_names l) = length l.
Proof. unfold sort_names. by rewrite merge_sort_Permutation. Qed.

Lemma previous_index_in_range (st : Annotator) :
  index_in_range st →
  index_in_range (set_current_video_index (current_video_index st - 1) st).
Proof. unfold index_in_range. simpl. intros [?|?]; [by left|right; lia]. Qed.

Lemma next_index_in_range (st : Annotator) :
  (Z.of_nat (current_video_index st) <? Z.of_nat (length (video_files st)) - 1) = true →
  index_in_range (set_current_video_index (current_video_index st + 1) st).
Proof. unfold index_in_range. simpl. intros Hlt. right. lia. Qed.

Lemma reload_index_in_range (found : list string) (st : Annotator) :
  found ≠ [] →
  index_in_range (set_current_video_index 0
                    (set_video_files (sort_names found) (set_video_files found st))).
Proof.
  unfold index_in_range. simpl. intros Hne. right. rewrite length_sort_names.
  destruct found; [done|]. simpl. lia.
Qed.

Lemma handle_index_in_range (videos : VideosDir) (ev : Event) (st : Annotator) :
  index_in_range st → index_in_range (handle videos ev st).
Proof.
  intros Hst. destruct ev; simpl.
  - unfold previous_video. destruct (video_files st) eqn:Hf; [done|].
    destruct (_ <? _)%nat; [|done].
    by apply load_current_video_index_in_range, previous_index_in_range.
  - unfold load_videos. destruct (found_videos videos) eqn:Hfound; [by left|].
    by apply load_current_video_index_in_range, reload_index_in_range.
  - unfold next_video. destruct (video_files st) eqn:Hf; [done|].
    destruct (_ <? _) eqn:Hlt; [|done].
    apply load_current_video_index_in_range, next_index_in_range.
    by rewrite Hf.
  - unfold index_in_range, seek_backward. by after_display'.
  - done.
  - unfold index_in_range, seek_forward. by after_display'.
  - unfold index_in_range, on_progress_change. destruct (negb _); [|done].
    by after_display'.
  - done.
  - unfold mark_end. destruct (temp_start_time st); [|done].
    by destruct (Qle_bool _ _).
  - unfold clear_last_segment. by destruct (segments st).
  - unfold clear_all_segments. by destruct (segments st).
  - destruct (keeps_playing st); [|done].
    unfold index_in_range, play_iteration. by after_display'.
  - unfold play_exit. by destruct (_ <=? _).
  - done.
Qed.

(** X2. In every reachable state the list of videos is empty or the
    current index lies inside it, so that loading the current video,
    reloading the folder and moving to the previous or next video never
    fail on the list index, whatever the folder holds. *)
Theorem reachable_no_index_error (st : Annotator) :
  reachable st →
  (video_files st = [] ∨ (current_video_index st < length (video_files st))%nat)
  ∧ ∀ videos,
      (load_current_video videos st).1 ≠ IndexOutOfRange
      ∧ (load_videos videos st).1 ≠ IndexOutOfRange
      ∧ (previous_video videos st).1 ≠ IndexOutOfRange
      ∧ (next_video videos st).1 ≠ IndexOutOfRange.
Proof.
  intros Hreach.
  assert (Hst : index_in_range st).
  { induction Hreach as [videos|videos ev st _ IH].
    - unfold load_videos. destruct (found_videos videos) eqn:Hfound; [by left|].
      by apply load_current_video_index_in_range, reload_index_in_range.
    - by apply handle_index_in_range. }
  split; [exact Hst|]. intros videos. split_and!.
  - by apply load_current_video_no_index_error.
  - unfold load_videos. destruct (found_videos videos) eqn:Hfound; [done|].
    by apply load_current_video_no_index_error, reload_index_in_range.
  - unfold previous_video. destruct (video_files st) eqn:Hf; [done|].
    destruct (_ <? _)%nat; [|done].
    by apply load_current_video_no_index_error, previous_index_in_range.
  - unfold next_video. destruct (video_files st) eqn:Hf; [done|].
    destruct (_ <? _) eqn:Hlt; [|done].
    apply load_current_video_no_index_error, next_index_in_range. by rewrite Hf.
Qed.

Lemma reachable_no_index_error_witness :
  (current_video_index demo_session < length (video_files demo_session))%nat
  ∧ (next_video demo_videos demo_session).1 = Loaded.
Proof.
  destruct (reachable_no_index_error demo_session demo_session_reachable)
    as [[Hempty|Hlt] _].
  - vm_compute in Hempty. discriminate Hempty.
  - split; [exact Hlt|]. vm_compute. reflexivity.
Defined.

(** ** The playback loop *)

(** One pass of the loop changes the frame counter only. *)
Lemma play_iteration_frame (st : Annotator) :
  current_frame (play_iteration st) = current_frame st + 1
  ∧ is_playing (play_iteration st) = is_playing st
  ∧ total_frames (play_iteration st) = total_frames st
  ∧ segments (play_iteration st) = segments st
  ∧ temp_start_time (play_iteration st) = temp_start_time st.
Proof. unfold play_iteration. by after_display'. Qed.

Lemma play_loop_runs (n : nat) : ∀ (fuel : nat) (st : Annotator),
  Z.to_nat (total_frames st - 1 - current_frame st) = n →
  (n < fuel)%nat →
  is_playing st = true →
  ∃ st', play_loop fuel st = Some st'
    ∧ current_frame st' = Z.max (current_frame st) (total_frames st - 1)
    ∧ is_playing st' = false
    ∧ total_frames st' = total_frames st
    ∧ segments st' = segments st
    ∧ temp_start_time st' = temp_start_time st.
Proof.
  induction n as [|n IH]; intros fuel st Hn Hfuel Hplaying;
    (destruct fuel as [|fuel]; [lia|]); simpl; unfold keeps_playing; rewrite Hplaying.
  - assert ((current_frame st <? total_frames st - 1) = false) as -> by lia.
    simpl. unfold play_exit.
    assert ((total_frames st - 1 <=? current_frame st) = true) as -> by lia.
    eexists. split; [done|]. simpl. split_and!; [lia|done..].
  - assert ((current_frame st <? total_frames st - 1) = true) as -> by lia.
    simpl. destruct (play_iteration_frame st) as (Hc & Hp & Ht & Hs & Hm).
    destruct (IH fuel (play_iteration st)) as (st' & Hrun & Hc' & Hp' & Ht' & Hs' & Hm').
    + rewrite Hc, Ht. lia.
    + lia.
    + by rewrite Hp.
    + exists st'. split; [done|].
      rewrite Hc', Ht', Hs', Hm', Hc, Ht, Hs, Hm. split_and!; [lia|done..].
Qed.

(** X3. Left alone while playback is on, the playback loop ends after
    [total_frames - 1 - current_frame] passes (none at or past the last
    frame): the current frame is then the last frame, or where it was if
    it was already at or past it, playback is switched off, and the
    ledger and the pending mark are as before. *)
Theorem play_loop_reaches_end (fuel : nat) (st : Annotator) :
  is_playing st = true →
  (Z.to_nat (total_frames st - 1 - current_frame st) < fuel)%nat →
  ∃ st', play_loop fuel st = Some st'
    ∧ current_frame st' = Z.max (current_frame st) (total_frames st - 1)
    ∧ is_playing st' = false
    ∧ total_frames st' = total_frames st
    ∧ segments st' = segments st
    ∧ temp_start_time st' = temp_start_time st.
Proof. intros Hplaying Hfuel. by eapply play_loop_runs. Qed.

Lemma play_loop_reaches_end_witness :
  is_playing demo_playing = true
  ∧ ∃ st', play_loop 900 demo_playing = Some st'
      ∧ current_frame st' = 899 ∧ is_playing st' = false.
Proof.
  assert (Hplaying : is_playing demo_playing = true) by (vm_compute; reflexivity).
  assert (Hfuel : (Z.to_nat (total_frames demo_playing - 1 - current_frame demo_playing)
                   < 900)%nat).
  { replace (total_frames demo_playing) with 900 by (vm_compute; reflexivity).
    replace (current_frame demo_playing) with 0 by (vm_compute; reflexivity). lia. }
  split; [exact Hplaying|].
  destruct (play_loop_reaches_end 900 demo_playing Hplaying Hfuel)
    as (st' & Hrun & Hframe & Hpaused & _).
  exists st'. split; [exact Hrun|]. split; [|exact Hpaused].
  rewrite Hframe. vm_compute. reflexivity.
Defined.

(** ** Seeking there and back *)





(** ** More on the ledger *)

Lemma clear_last_segment_snoc (st : Annotator) (earlier : list (Q * Q)) (last : Q * Q) :
  segments st = earlier ++ [last] → clear_last_segment st = set_segments earlier st.
Proof.
  intros Hs. unfold clear_last_segment. rewrite Hs.
  destruct (earlier ++ [last]) eqn:Happ.
  { by apply app_eq_nil in Happ as [_ ?]. }
  rewrite <- Happ. by rewrite removelast_last.
Qed.

(** X5. [clear_last_segment] right after a successful [mark_end] gives
    back the segment list as it was before the mark, but not the pending
    start, which stays cleared. In general it removes exactly the last
    segment and touches neither the pending mark nor the notices; on an
    empty list it only shows "No segments to remove!". *)
Theorem clear_last_segment_undoes_mark_end (st : Annotator) :
  (∀ start, temp_start_time st = Some start → ¬ (current_time st <= start)%Q →
     segments (clear_last_segment (mark_end st)) = segments st
     ∧ temp_start_time (clear_last_segment (mark_end st)) = None
     ∧ notices (clear_last_segment (mark_end st)) = notices st)
  ∧ (∀ earlier last, segments st = earlier ++ [last] →
     segments (clear_last_segment st) = earlier
     ∧ temp_start_time (clear_last_segment st) = temp_start_time st
     ∧ notices (clear_last_segment st) = notices st)
  ∧ (segments st = [] →
     clear_last_segment st = notify (showinfo "Info" "No segments to remove!") st).
Proof.
  split_and!.
  - intros start Hstart Hgt.
    assert (Hend : mark_end st
              = set_temp_start_time None
                  (set_segments (segments st ++ [(start, current_time st)]) st)).
    { unfold mark_end. rewrite Hstart. apply Qle_bool_false in Hgt. by rewrite Hgt. }
    rewrite (clear_last_segment_snoc (mark_end st) (segments st) (start, current_time st))
      by (by rewrite Hend).
    by rewrite Hend.
  - intros earlier last Hs. by rewrite (clear_last_segment_snoc st earlier last).
  - intros Hs. unfold clear_last_segment. by rewrite Hs.
Qed.

Lemma clear_last_segment_undoes_mark_end_witness :
  temp_start_time demo_marked_at_10s = Some (150 # 30)%Q
  ∧ segments (clear_last_segment (mark_end demo_marked_at_10s))
    = segments demo_marked_at_10s
  ∧ temp_start_time (clear_last_segment (mark_end demo_marked_at_10s)) = None.
Proof.
  assert (Hmark : temp_start_time demo_marked_at_10s = Some (150 # 30)%Q)
    by (vm_compute; reflexivity).
  assert (Hlater : ¬ (current_time demo_marked_at_10s <= 150 # 30)%Q)
    by (vm_compute; intros H; by apply H).
  split; [exact Hmark|].
  destruct (proj1 (clear_last_segment_undoes_mark_end demo_marked_at_10s)
              (150 # 30)%Q Hmark Hlater) as (Hsegments & Hpending & _).
  split; [exact Hsegments|exact Hpending].
Defined.

Lemma current_time_same (st st' : Annotator) :
  fps st' = fps st → current_frame st' <= current_frame st →
  (current_time st' <= current_time st)%Q.
Proof.
  intros Hfps Hframe. unfold current_time. rewrite Hfps.
  destruct (Qlt_bool 0 (fps st)) eqn:Hpos; [|apply Qle_refl].
  unfold Qlt_bool in Hpos. apply negb_true_iff, Qle_bool_false, Qnot_le_lt in Hpos.
  unfold Qdiv. apply Qmult_le_compat_r.
  - by rewrite <- Zle_Qle.
  - apply Qlt_le_weak. by apply Qinv_lt_0_compat.
Qed.

(** X6. A start marked in one state cannot be closed in a state with
    the same frame rate whose current frame is not beyond the frame of
    the mark: [mark_end] reports [InvalidRange] and adds nothing. In
    particular [mark_end] right after [mark_start] always fails, so no
    segment of length zero can be marked. *)
Theorem mark_end_needs_progress (st st' : Annotator) :
  temp_start_time st' = temp_start_time (mark_start st) →
  fps st' = fps st →
  current_frame st' <= current_frame st →
  mark_end st' = notify InvalidRange st'
  ∧ segments (mark_end st') = segments st'
  ∧ mark_end (mark_start st) = notify InvalidRange (mark_start st).
Proof.
  assert (Hgen : ∀ st', temp_start_time st' = temp_start_time (mark_start st) →
            fps st' = fps st → current_frame st' <= current_frame st →
            mark_end st' = notify InvalidRange st').
  { clear st'. intros st' Hmark Hfps Hframe. unfold mark_end. rewrite Hmark. simpl.
    assert (Qle_bool (current_time st') (current_time st) = true) as ->; [|done].
    apply Qle_bool_iff. by apply current_time_same. }
  intros Hmark Hfps Hframe. split_and!.
  - by apply Hgen.
  - by rewrite Hgen.
  - apply Hgen; [done|done|]. simpl. lia.
Qed.

Lemma mark_end_needs_progress_witness :
  current_frame (seek_backward demo_marked) <= current_frame demo_at_5s
  ∧ mark_end (seek_backward demo_marked) = notify InvalidRange (seek_backward demo_marked).
Proof.
  assert (Hmark : temp_start_time (seek_backward demo_marked)
                  = temp_start_time (mark_start demo_at_5s)) by (vm_compute; reflexivity).
  assert (Hfps : fps (seek_backward demo_marked) = fps demo_at_5s)
    by (vm_compute; reflexivity).
  assert (Hframe : current_frame (seek_backward demo_marked) <= current_frame demo_at_5s)
    by (vm_compute; discriminate).
  split; [exact Hframe|].
  exact (proj1 (mark_end_needs_progress demo_at_5s (seek_backward demo_marked)
                  Hmark Hfps Hframe)).
Defined.

(** ** More on loading *)

(** X7. When the file at the current index does not open,
    [load_current_video] shows the error and returns before the reset:
    the ledger, the pending mark, the current frame, the playing flag,
    the frame count and the frame rate of the previous video stay, while
    [current_video_path] and the capture already belong to the file that
    failed. *)
Theorem failed_open_keeps_ledger (videos : VideosDir) (st st' : Annotator) :
  load_current_video videos st = (OpenFailed, st') →
  segments st' = segments st
  ∧ temp_start_time st' = temp_start_time st
  ∧ current_frame st' = current_frame st
  ∧ is_playing st' = is_playing st
  ∧ total_frames st' = total_frames st
  ∧ fps st' = fps st
  ∧ ∃ path,
      video_files st !! current_video_index st = Some path
      ∧ mjoin (videos !! path) = None
      ∧ current_video_path st' = Some path
      ∧ cap st' = Some {| cap_path := path; cap_props := None |}
      ∧ notices st'
        = notices st ++ [showerror "Error" ("Could not open video: " +:+ path)].
Proof.
  unfold load_current_video.
  destruct (video_files st) as [|f fs] eqn:Hfiles; [done|].
  destruct (_ !! _) as [path|] eqn:Hpath; [|done].
  destruct (cap_props _) as [props|] eqn:Hprops; [done|].
  intros [= <-]. simpl. split_and!; [done..|].
  exists path. simpl in Hprops. split_and!; [done|done|done| |done].
  unfold VideoCapture. by rewrite Hprops.
Qed.

Lemma failed_open_keeps_ledger_witness :
  (load_current_video demo_videos demo_at_broken).1 = OpenFailed
  ∧ segments (load_current_video demo_videos demo_at_broken).2
    = [((150 # 30)%Q, (300 # 30)%Q)]
  ∧ current_video_path (load_current_video demo_videos demo_at_broken).2
    = Some "broken.avi"%string.
Proof.
  assert (Hrun : load_current_video demo_videos demo_at_broken
                 = (OpenFailed, (load_current_video demo_videos demo_at_broken).2))
    by (vm_compute; reflexivity).
  split; [vm_compute; reflexivity|].
  destruct (failed_open_keeps_ledger demo_videos demo_at_broken _ Hrun)
    as (Hsegments & _ & _ & _ & _ & _ & path & Hpath & _ & Hcurrent & _).
  split.
  - rewrite Hsegments. vm_compute. reflexivity.
  - rewrite Hcurrent. f_equal. vm_compute in Hpath. by injection Hpath.
Defined.

Lemma next_video_moves (videos : VideosDir) (st : Annotator) :
  (current_video_index st + 1 < length (video_files st))%nat →
  next_video videos st
  = load_current_video videos
      (set_current_video_index (current_video_index st + 1) st).
Proof.
  intros Hlt. unfold next_video.
  destruct (video_files st) as [|f fs] eqn:Hf; [simpl in Hlt; lia|].
  by assert ((Z.of_nat (current_video_index st) <? Z.of_nat (length (f :: fs)) - 1) = true)
    as -> by lia.
Qed.

Lemma previous_video_moves (videos : VideosDir) (st : Annotator) :
  video_files st ≠ [] → (0 < current_video_index st)%nat →
  previous_video videos st
  = load_current_video videos
      (set_current_video_index (current_video_index st - 1) st).
Proof.
  intros Hne Hlt. unfold previous_video.
  destruct (video_files st) as [|f fs] eqn:Hf; [done|].
  by assert ((0 <? current_video_index st)%nat = true) as -> by (apply Nat.ltb_lt; lia).
Qed.

(** X8. From a video that opens and is not the last of the list, going
    to the next video and back to the previous one loads the first video
    again, at the same index, but with an empty ledger, no pending mark
    and the current frame at 0: what was marked before is gone. *)
Theorem next_then_previous (videos : VideosDir) (st : Annotator)
    (path : string) (props : VideoProps) :
  (current_video_index st + 1 < length (video_files st))%nat →
  video_files st !! current_video_index st = Some path →
  videos !! path = Some (Some props) →
  let back := previous_video videos (next_video videos st).2 in
  back.1 = Loaded
  ∧ current_video_index back.2 = current_video_index st
  ∧ current_video_path back.2 = Some path
  ∧ segments back.2 = []
  ∧ temp_start_time back.2 = None
  ∧ current_frame back.2 = 0.
Proof.
  intros Hlt Hpath Hopen back.
  set (st1 := (next_video videos st).2).
  assert (Hfiles : video_files st1 = video_files st)
    by (unfold st1; rewrite next_video_moves by done;
        by rewrite video_files_load_current_video).
  assert (Hindex : current_video_index st1 = (current_video_index st + 1)%nat)
    by (unfold st1; rewrite next_video_moves by done;
        by rewrite index_load_current_video).
  set (st2 := set_current_video_index (current_video_index st1 - 1) st1).
  assert (Hback : back = load_current_video videos st2).
  { unfold back. fold st1. apply previous_video_moves; [|lia].
    rewrite Hfiles. intros Hnil. rewrite Hnil in Hlt. simpl in Hlt. lia. }
  assert (Hidx2 : current_video_index st2 = current_video_index st)
    by (unfold st2; simpl; lia).
  assert (Hfiles2 : video_files st2 = video_files st) by done.
  assert (Hloaded : (load_current_video videos st2).1 = Loaded).
  { apply load_current_video_loaded. exists path, props.
    by rewrite Hfiles2, Hidx2. }
  rewrite Hback.
  pose proof (index_load_current_video videos st2) as Hidx.
  pose proof (video_files_load_current_video videos st2) as Hvf.
  destruct (load_current_video videos st2) as [outcome st3] eqn:Hrun.
  cbn [fst snd] in Hloaded, Hidx, Hvf. subst outcome.
  apply load_current_video_resets in Hrun
    as (Hc & _ & Hs & Hm & path' & props' & Hpath' & _ & Hcur & _).
  cbn [fst snd]. split_and!; [done|by rewrite Hidx| |done|done|done].
  rewrite Hcur. f_equal.
  rewrite Hvf, Hfiles2, Hidx2, Hpath in Hpath'. by injection Hpath'.
Qed.

Lemma next_then_previous_witness :
  segments demo_session = [((150 # 30)%Q, (300 # 30)%Q)]
  ∧ current_video_path (previous_video demo_videos (next_video demo_videos demo_session).2).2
    = Some "a.mov"%string
  ∧ segments (previous_video demo_videos (next_video demo_videos demo_session).2).2 = [].
Proof.
  assert (Hlt : (current_video_index demo_session + 1
                 < length (video_files demo_session))%nat)
    by (vm_compute; lia).
  assert (Hpath : video_files demo_session !! current_video_index demo_session
                  = Some "a.mov"%string) by (vm_compute; reflexivity).
  assert (Hopen : demo_videos !! "a.mov"%string
                  = Some (Some {| CAP_PROP_FRAME_COUNT := 900; CAP_PROP_FPS := 30 |}))
    by (vm_compute; reflexivity).
  split; [vm_compute; reflexivity|].
  destruct (next_then_previous demo_videos demo_session "a.mov" _ Hlt Hpath Hopen)
    as (_ & _ & Hcurrent & Hsegments & _).
  split; [exact Hcurrent|exact Hsegments].
Defined.

(** ** Names of exported segments *)









(** ** Exporting the ledger *)

#[global] Instance frame_name_Inj : Inj (=) (=) frame_name.
Proof. intros i j. apply frame_name_inj. Qed.


Section ExportFacts.
Context {Frame : Type}.
Variable mp4v : Q → list Frame → option (@VideoFile Frame).

Lemma write_frames_keeps (clip : list Frame) (k : nat) (dir : gmap string (@File Frame))
    (name : string) :
  is_Some (dir !! name) → is_Some ((write_frames clip k dir).2 !! name).
Proof.
  revert k dir. induction clip as [|frame rest IH]; intros k dir Hsome; simpl; [done|].
  apply IH. rewrite lookup_insert_is_Some. destruct (decide (frame_name k = name)); auto.
Qed.

Lemma file_at_put_frames_folder (p : @ProjectDirs Frame) (segment : string)
    (folder : gmap string (@File Frame)) (other name : string) :
  file_at (put_frames_folder segment folder p) other name
  = if decide (segment = other) then folder !! name else file_at p other name.
Proof.
  unfold file_at, put_frames_folder, folder_files. simpl.
  case_decide as Heq.
  - subst. by rewrite lookup_insert_eq.
  - by rewrite lookup_insert_ne.
Qed.

Lemma frames_folder_files (p : @ProjectDirs Frame) (segment : string)
    (folder : gmap string (@File Frame)) (name : string) :
  frames_folder segment (segments_frames p) = Some folder →
  file_at p segment name = folder !! name.
Proof.
  unfold frames_folder, file_at, folder_files.
  destruct (default ∅ (segments_frames p) !! segment) as [[|files]|]; by intros [= <-].
Qed.

Lemma extract_segment_frames_keeps (original_video segment : string)
    (start_time end_time : Q) (p : @ProjectDirs Frame) (other name : string) :
  is_Some (file_at p other name) →
  is_Some (file_at (extract_segment_frames original_video segment
                      start_time end_time p).2 other name).
Proof.
  intros Hsome. unfold extract_segment_frames.
  destruct (frames_folder segment (segments_frames p)) as [folder|] eqn:Hfolder; [|done].
  destruct (segments_videos p !! (segment +:+ ".mp4")) as [clip|].
  - pose proof (write_frames_keeps (vf_frames clip) 0 folder name) as Hkeep.
    destruct (write_frames (vf_frames clip) 0 folder) as [n folder'].
    cbn [snd] in *. rewrite file_at_put_frames_folder. case_decide as Heq; [|done].
    subst other. rewrite (frames_folder_files p segment folder name Hfolder) in Hsome.
    rewrite lookup_insert_is_Some. destruct (decide ("metadata.json"%string = name)); auto.
  - cbn [snd]. rewrite file_at_put_frames_folder. case_decide as Heq; [|done].
    subst other. by rewrite <- (frames_folder_files p segment folder name Hfolder).
Qed.

Lemma extract_segment_frames_metadata (original_video segment : string)
    (start_time end_time : Q) (p p' : @ProjectDirs Frame) (n : nat) :
  extract_segment_frames original_video segment start_time end_time p = (Some n, p') →
  ∃ clip, segments_videos p !! (segment +:+ ".mp4") = Some clip
    ∧ n = length (vf_frames clip)
    ∧ file_at p' segment "metadata.json"
      = Some (JsonFile (segment_metadata original_video start_time end_time
                          (vf_fps clip) n segment)).
Proof.
  unfold extract_segment_frames.
  destruct (frames_folder segment (segments_frames p)) as [folder|] eqn:Hfolder; [|done].
  destruct (segments_videos p !! (segment +:+ ".mp4")) as [clip|]; [|done].
  destruct (write_frames_spec (vf_frames clip) 0 folder) as (Hn & _).
  destruct (write_frames (vf_frames clip) 0 folder) as [n' folder'].
  cbn [fst] in Hn. intros [= <- <-]. exists clip. split; [done|]. split; [done|].
  rewrite file_at_put_frames_folder, decide_True by done.
  rewrite lookup_insert_eq. by rewrite Hn.
Qed.

Lemma export_segment_keeps (source : option (@VideoFile Frame))
    (original_video video_name : string) (i : nat) (segment : Q * Q)
    (p : @ProjectDirs Frame) (other name : string) :
  is_Some (file_at p other name) →
  is_Some (file_at (export_segment mp4v source original_video video_name i segment p).2
             other name).
Proof. intros Hsome. unfold export_segment. by apply extract_segment_frames_keeps. Qed.

Lemma export_from_keeps (source : option (@VideoFile Frame))
    (original_video video_name : string) (todo : list (Q * Q)) :
  ∀ (i : nat) (p : @ProjectDirs Frame) (other name : string),
  is_Some (file_at p other name) →
  is_Some (file_at (export_from mp4v source original_video video_name i todo p).2
             other name).
Proof.
  induction todo as [|segment rest IH]; intros i p other name Hsome; simpl; [done|].
  pose proof (export_segment_keeps source original_video video_name i segment p
                other name Hsome) as Hstep.
  destruct (export_segment mp4v source original_video video_name i segment p)
    as [[n|] p1]; [|done].
  by apply IH.
Qed.

Lemma export_from_metadata (source : option (@VideoFile Frame))
    (original_video video_name : string) (todo : list (Q * Q)) :
  ∀ (i : nat) (p p' : @ProjectDirs Frame),
  export_from mp4v source original_video video_name i todo p = (true, p') →
  ∀ k, (k < length todo)%nat →
    is_Some (file_at p' (segment_folder_name video_name (i + k)) "metadata.json").
Proof.
  induction todo as [|segment rest IH]; intros i p p' Hrun k Hk; simpl in *; [lia|].
  destruct (export_segment mp4v source original_video video_name i segment p)
    as [[n|] p1] eqn:Hstep; [|done].
  destruct k as [|k].
  - rewrite Nat.add_0_r.
    unfold export_segment in Hstep.
    apply extract_segment_frames_metadata in Hstep as (clip & _ & _ & Hmeta).
    pose proof (export_from_keeps source original_video video_name rest (S i) p1
      (segment_folder_name video_name i) "metadata.json") as Hkeep.
    rewrite Hrun in Hkeep. apply Hkeep. unfold segment_folder_name. by rewrite Hmeta.
  - replace (i + S k)%nat with (S i + k)%nat by lia.
    apply (IH (S i) p1 p' Hrun). lia.
Qed.

(** X10. [export_segments] never changes the ledger, the pending mark
    or the current frame. With an empty ledger it only shows the warning
    and leaves the project as it is. When it reports success, every
    position [k] of the ledger has its folder
    [<stem>_segment_<k+1>] in [segments/frames], holding a
    [metadata.json]; when it fails it shows the error notice. *)
Theorem export_segments_outcome (source : option (@VideoFile Frame)) (st : Annotator)
    (p : @ProjectDirs Frame) :
  let run := export_segments mp4v source st p in
  segments run.1.2 = segments st
  ∧ temp_start_time run.1.2 = temp_start_time st
  ∧ current_frame run.1.2 = current_frame st
  ∧ (segments st = [] →
     run.1.1 = NothingToExport ∧ run.2 = p
     ∧ notices run.1.2 = notices st ++ [nothing_to_export])
  ∧ (run.1.1 = Exported →
     notices run.1.2 = notices st ++ [export_success (length (segments st))]
     ∧ ∃ path, current_video_path st = Some path
       ∧ ∀ k, (k < length (segments st))%nat →
           is_Some (file_at run.2 (segment_folder_name (stem path) k) "metadata.json"))
  ∧ (run.1.1 = ExportFailed → notices run.1.2 = notices st ++ [export_failed]).
Proof.
  intros run. unfold run, export_segments.
  destruct (segments st) as [|s0 rest] eqn:Hsegs.
  { simpl. rewrite Hsegs. by split_and!. }
  destruct (current_video_path st) as [path|] eqn:Hpath.
  2:{ simpl. rewrite Hsegs. by split_and!. }
  pose proof (export_from_metadata source path (stem path) (s0 :: rest) 0 p) as Hmeta.
  destruct (export_from mp4v source path (stem path) 0 (s0 :: rest) p) as [[|] p'];
    simpl; rewrite Hsegs; split_and!; try done.
  intros _. split; [done|]. exists path. split; [done|].
  intros k Hk. by apply (Hmeta p').
Qed.

(** X11. [export_segments] never removes a file from a segment folder:
    whatever was in [segments/frames] before is still there afterwards,
    whether the export succeeds or stops at an exception (no rollback),
    and also when a folder is exported again with fewer frames (the
    frames of the longer export stay). *)
Theorem export_segments_keeps_files (source : option (@VideoFile Frame))
    (st : Annotator) (p : @ProjectDirs Frame) (segment name : string) :
  is_Some (file_at p segment name) →
  is_Some (file_at (export_segments mp4v source st p).2 segment name).
Proof.
  intros Hsome. unfold export_segments.
  destruct (segments st) as [|s0 rest]; [done|].
  destruct (current_video_path st) as [path|]; [|done].
  pose proof (export_from_keeps source path (stem path) (s0 :: rest) 0 p
                segment name Hsome) as Hkeep.
  by destruct (export_from mp4v source path (stem path) 0 (s0 :: rest) p) as [[|] p'].
Qed.
End ExportFacts.

Lemma export_segments_outcome_witness :
  (export_segments lossless (Some demo_source) demo_session empty_project).1.1 = Exported
  ∧ is_Some (file_at demo_exported "a_segment_1" "metadata.json").
Proof.
  assert (Hok : (export_segments lossless (Some demo_source) demo_session
                   empty_project).1.1 = Exported) by (vm_compute; reflexivity).
  split; [exact Hok|].
  pose proof (export_segments_outcome lossless (Some demo_source) demo_session
                empty_project) as H.
  cbv zeta in H. destruct H as (_ & _ & _ & _ & Hexported & _).
  destruct (Hexported Hok) as (_ & path & Hpath & Hfolders).
  assert (Hname : segment_folder_name (stem path) 0 = "a_segment_1"%string).
  { vm_compute in Hpath. injection Hpath as <-. vm_compute. reflexivity. }
  rewrite <- Hname. apply Hfolders. vm_compute. lia.
Defined.

Lemma export_segments_keeps_files_witness :
  is_Some (file_at demo_exported "a_segment_1" "frame_0050.jpg")
  ∧ (length (segment_frames (Some short_source) (150 # 30) (300 # 30)) = 10)%nat
  ∧ is_Some (file_at (export_segments lossless (Some short_source) demo_session
                        demo_exported).2 "a_segment_1" "frame_0050.jpg").
Proof.
  assert (Hstale : is_Some (file_at demo_exported "a_segment_1" "frame_0050.jpg"))
    by (vm_compute; by eexists).
  split; [exact Hstale|]. split; [vm_compute; reflexivity|].
  exact (export_segments_keeps_files lossless (Some short_source) demo_session
           demo_exported "a_segment_1" "frame_0050.jpg" Hstale).
Defined.

Section ExportConsistency.
Context {Frame : Type}.


End ExportConsistency.


(** ** More on the dataset unifier *)

(** Export frame names below 10000 all have 14 characters. *)
Lemma length_frame_name (i : nat) :
  Z.of_nat i < 9999 → length (chars (frame_name i)) = 14%nat.
Proof.
  intros Hi. unfold frame_name. rewrite format_0d_4_small by lia.
  by rewrite !chars_app, !length_app.
Qed.

(** X13. For frames numbered below 10000, as the exporter names them,
    the unified name [<folder>_<frame>] determines both the folder and
    the frame: two different frames of the exported segments never get
    the same file name in the unified images directory. *)
Theorem unified_names_unique (segment1 segment2 : string) (i j : nat) :
  Z.of_nat i < 9999 → Z.of_nat j < 9999 →
  unified_name (segment1, frame_name i) = unified_name (segment2, frame_name j) →
  segment1 = segment2 ∧ i = j.
Proof.
  intros Hi Hj Heq. unfold unified_name in Heq. simpl in Heq.
  apply (f_equal chars) in Heq. rewrite !chars_app in Heq.
  rewrite !(assoc_L (++)) in Heq.
  apply app_inj_2 in Heq as [Hseg Hframe];
    [|rewrite !length_frame_name by lia; done].
  apply chars_inj in Hframe. apply frame_name_inj in Hframe.
  apply app_inv_tail in Hseg. split; [|done]. by apply chars_inj.
Qed.

Lemma unified_names_unique_witness :
  unified_name ("a_segment_1"%string, frame_name 2) = "a_segment_1_frame_0003.jpg"%string
  ∧ ("a_segment_1"%string = "a_segment_1"%string ∧ 2%nat = 2%nat).
Proof.
  split; [vm_compute; reflexivity|].
  apply unified_names_unique; [lia|lia|reflexivity].
Defined.

Lemma string_app_assoc (a b c : string) : (a +:+ b) +:+ c = a +:+ (b +:+ c).
Proof. apply chars_inj. by rewrite !chars_app, app_assoc. Qed.

Section UnifierMore.
Context {Frame : Type}.
Variables copy2_succeeds copy_succeeds : string → string → bool.
Variable timestamp : string.

Lemma process_folder_readable (frames : gmap string (@Entry Frame)) (segment : string)
    (w : @Progress Frame) :
  is_Some (process_folder copy2_succeeds copy_succeeds frames segment w)
  ↔ metadata_readable copy2_succeeds frames segment = true.
Proof.
  unfold process_folder, take_metadata, metadata_readable.
  destruct (folder_files frames segment !! "metadata.json") as [[| |]|].
  - split; [by intros []|done].
  - destruct (copy2_succeeds segment "metadata.json").
    + split; [done|]. intros _. by destruct (copy_frames _ _ _ _ _ _ _ _) as [[??]?].
    + split; [by intros []|done].
  - split; [by intros []|done].
  - split; [done|]. intros _. by destruct (copy_frames _ _ _ _ _ _ _ _) as [[??]?].
Qed.

Lemma process_folders_readable (frames : gmap string (@Entry Frame)) (todo : list string) :
  ∀ w : @Progress Frame,
  (process_folders copy2_succeeds copy_succeeds frames todo w).1 = true
  ↔ Forall (λ segment, metadata_readable copy2_succeeds frames segment = true) todo.
Proof.
  induction todo as [|segment rest IH]; intros w; simpl.
  - split; [intros _; constructor|done].
  - rewrite Forall_cons, <- (process_folder_readable frames segment w).
    destruct (process_folder copy2_succeeds copy_succeeds frames segment w) as [w'|].
    + rewrite IH. split; [intros ?; split; [by eexists|done]|by intros [_ ?]].
    + split; [done|]. by intros [[] _].
Qed.

(** X14. With at least one segment folder, a run of
    [create_unified_dataset] reaches its end exactly when the metadata
    step of every folder goes through. If some folder has a
    [metadata.json] that is not JSON, or one whose copy fails, the run
    is left by the exception: no notice is shown, and the summary and
    the frame list of an earlier run, if any, are left as they were.
    (Frame copies that fail are skipped and never end the run.) *)
Theorem unification_raises_on_metadata (p : @ProjectDirs Frame)
    (frames : gmap string (@Entry Frame)) :
  segments_frames p = Some frames →
  segment_folders frames ≠ [] →
  let run := create_unified_dataset copy2_succeeds copy_succeeds timestamp p in
  (Forall (λ segment, metadata_readable copy2_succeeds frames segment = true)
     (segment_folders frames) →
   run.1.1 = Unified)
  ∧ (¬ Forall (λ segment, metadata_readable copy2_succeeds frames segment = true)
         (segment_folders frames) →
     run.1.1 = UnifyRaised
     ∧ run.2 = []
     ∧ (unified_dataset_dir run.1.2 ≫= dataset_summary_json)
       = (unified_dataset_dir p ≫= dataset_summary_json)
     ∧ (unified_dataset_dir run.1.2 ≫= frame_list_txt)
       = (unified_dataset_dir p ≫= frame_list_txt)).
Proof.
  intros Hframes Hfolders run. unfold run, create_unified_dataset. rewrite Hframes.
  case_decide as Hempty.
  { destruct Hfolders. unfold segment_folders. by rewrite Hempty. }
  destruct (segment_folders frames) as [|folder folders] eqn:Hsorted; [done|].
  pose proof (process_folders_readable frames (folder :: folders)
    {| dataset_images :=
         default ∅ (images (make_unified_dirs (unified_dataset_dir p)));
       dataset_metadata :=
         default ∅ (metadata (make_unified_dirs (unified_dataset_dir p)));
       total_frames_copied := 0;
       summary_segments := [] |}) as Hreadable.
  destruct (process_folders _ _ _ _ _) as [[|] w]; cbn [fst] in Hreadable.
  - split; [done|]. intros Hnot. destruct Hnot. by apply Hreadable.
  - split.
    + intros Hall. apply Hreadable in Hall. done.
    + intros _. simpl. split_and!; [done|done| |];
        unfold make_unified_dirs; by destruct (unified_dataset_dir p).
Qed.

Lemma metadata_make_unified_dirs (p : @ProjectDirs Frame) :
  default ∅ (metadata (make_unified_dirs (unified_dataset_dir p))) = metadata_before p.
Proof.
  unfold metadata_before, make_unified_dirs.
  destruct (unified_dataset_dir p) as [u|]; [|done].
  simpl. by destruct (metadata u).
Qed.

(** A run that reaches its end, taken apart. *)
Lemma unified_run (p p' : @ProjectDirs Frame) (notes : list Notice) :
  create_unified_dataset copy2_succeeds copy_succeeds timestamp p = (Unified, p', notes) →
  ∃ frames w,
    segments_frames p = Some frames
    ∧ process_folders copy2_succeeds copy_succeeds frames (segment_folders frames)
        (initial_progress p) = (true, w)
    ∧ unified_dataset_dir p'
      = Some {| images := Some (dataset_images w);
                metadata := Some (dataset_metadata w);
                dataset_summary_json :=
                  Some {| Summary.total_frames := total_frames_copied w;
                          Summary.total_segments := length (segment_folders frames);
                          Summary.creation_timestamp := timestamp;
                          Summary.segments := summary_segments w |};
                frame_list_txt :=
                  Some {| listed_total_frames :=
                            length (sort_names (filter (λ name, is_jpg name = true)
                                                  (map_to_list (dataset_images w)).*1));
                          listed_total_segments := length (segment_folders frames);
                          listed_files :=
                            sort_names (filter (λ name, is_jpg name = true)
                                          (map_to_list (dataset_images w)).*1) |} |}.
Proof.
  unfold create_unified_dataset.
  destruct (segments_frames p) as [frames|] eqn:Hframes; [|done].
  case_decide as Hnonempty; [done|].
  destruct (segment_folders frames) as [|folder folders] eqn:Hfolders; [done|].
  rewrite images_make_unified_dirs, metadata_make_unified_dirs.
  fold (initial_progress p).
  destruct (process_folders _ _ _ _ _) as [[|] w] eqn:Hrun; [|done].
  intros [= <- <-]. exists frames, w. by rewrite Hfolders.
Qed.

Lemma frame_files_jpg (files : gmap string (@File Frame)) (name : string) :
  name ∈ frame_files files → has_suffix name ".jpg".
Proof.
  unfold frame_files, sort_names. rewrite merge_sort_Permutation.
  rewrite list_elem_of_filter. intros [Hjpg _].
  unfold is_frame_jpg in Hjpg. apply andb_true_iff in Hjpg as [Hjpg _].
  apply andb_true_iff in Hjpg as [_ Hjpg]. by apply endswith_has_suffix.
Qed.

Lemma copies_of_jpg (frames : gmap string (@Entry Frame)) (folders : list string)
    (copy : string * string) :
  copy ∈ copies_of copy2_succeeds copy_succeeds frames folders →
  has_suffix (unified_name copy) ".jpg".
Proof.
  unfold copies_of. rewrite list_elem_of_In, in_concat.
  intros (l & Hl & Hin). apply in_map_iff in Hl as (segment & <- & _).
  apply list_elem_of_In, list_elem_of_fmap in Hin as (name & -> & Hname).
  unfold copied_frames in Hname. apply list_elem_of_filter in Hname as [_ Hname].
  apply frame_files_jpg in Hname as [base ->].
  exists (segment +:+ "_" +:+ base). unfold unified_name. simpl.
  by rewrite !string_app_assoc.
Qed.

(** X15. The frame list written at the end of a run lists, sorted and
    without repetition, exactly the [*.jpg] files that are in the
    unified images directory at that moment, and its header count is the
    length of that list. Every frame copied in this run is listed, and
    so is every [*.jpg] left there by an earlier run. *)
Theorem frame_list_reflects_disk (p p' : @ProjectDirs Frame) (notes : list Notice) :
  create_unified_dataset copy2_succeeds copy_succeeds timestamp p = (Unified, p', notes) →
  ∃ frames u imgs listing,
    segments_frames p = Some frames
    ∧ unified_dataset_dir p' = Some u
    ∧ images u = Some imgs
    ∧ frame_list_txt u = Some listing
    ∧ StronglySorted String.le (listed_files listing)
    ∧ NoDup (listed_files listing)
    ∧ (∀ name, name ∈ listed_files listing ↔
         is_Some (imgs !! name) ∧ has_suffix name ".jpg")
    ∧ listed_total_frames listing = length (listed_files listing)
    ∧ (∀ copy, copy ∈ successfully_copied copy2_succeeds copy_succeeds frames →
         unified_name copy ∈ listed_files listing)
    ∧ (∀ name, is_Some (images_before p !! name) → has_suffix name ".jpg" →
         name ∈ listed_files listing).
Proof.
  intros Hrun. apply unified_run in Hrun as (frames & w & Hframes & Hloop & Hdir).
  apply process_folders_spec in Hloop as (_ & _ & _ & Himgs). cbn [dataset_images initial_progress] in Himgs.
  assert (Hlisted : ∀ name,
    name ∈ sort_names (filter (λ name, is_jpg name = true)
                         (map_to_list (dataset_images w)).*1)
    ↔ is_Some (dataset_images w !! name) ∧ has_suffix name ".jpg").
  { intros name. unfold sort_names. rewrite merge_sort_Permutation.
    rewrite list_elem_of_filter. unfold is_jpg. rewrite endswith_has_suffix.
    split.
    - intros [Hjpg Hin]. split; [|done].
      apply list_elem_of_fmap in Hin as ([k v] & -> & Hkv).
      apply elem_of_map_to_list in Hkv. by exists v.
    - intros [[v Hv] Hjpg]. split; [done|].
      apply list_elem_of_fmap. exists (name, v). split; [done|].
      by apply elem_of_map_to_list. }
  eexists frames, _, (dataset_images w), _.
  split_and!; [done|exact Hdir|done|done| | |exact Hlisted|done| |].
  - apply StronglySorted_merge_sort; apply _.
  - simpl. unfold sort_names. rewrite merge_sort_Permutation.
    apply NoDup_filter, NoDup_fst_map_to_list.
  - intros copy Hcopy. simpl. apply Hlisted. split.
    + apply Himgs. right. by exists copy.
    + by eapply copies_of_jpg.
  - intros name Hsome Hjpg. simpl. apply Hlisted. split; [|done].
    apply Himgs. by left.
Qed.

Lemma process_folder_metadata (frames : gmap string (@Entry Frame)) (segment : string)
    (w w' : @Progress Frame) :
  process_folder copy2_succeeds copy_succeeds frames segment w = Some w' →
  ∃ info,
    summary_segments w' = summary_segments w ++ [info]
    ∧ Summary.segment_name info = segment
    ∧ Summary.metadata info = default [] (folder_metadata frames segment)
    ∧ dataset_metadata w'
      = match folder_metadata frames segment with
        | Some content =>
            <[unified_metadata_name segment := JsonFile content]> (dataset_metadata w)
        | None => dataset_metadata w
        end.
Proof.
  unfold process_folder, take_metadata, folder_metadata.
  destruct (folder_files frames segment !! "metadata.json") as [[|content|]|];
    [done| |done|].
  - destruct (copy2_succeeds segment "metadata.json"); [|done].
    destruct (copy_frames _ _ _ _ _ _ _ _) as [[imgs n] t].
    intros [= <-]. eexists. by split_and!.
  - destruct (copy_frames _ _ _ _ _ _ _ _) as [[imgs n] t].
    intros [= <-]. eexists. by split_and!.
Qed.

Lemma unified_metadata_name_inj (segment1 segment2 : string) :
  unified_metadata_name segment1 = unified_metadata_name segment2 →
  segment1 = segment2.
Proof. apply string_app_inv_tail. Qed.

Lemma process_folders_metadata (frames : gmap string (@Entry Frame)) (todo : list string) :
  ∀ w w' : @Progress Frame,
  process_folders copy2_succeeds copy_succeeds frames todo w = (true, w') →
  Summary.metadata <$> summary_segments w'
    = (Summary.metadata <$> summary_segments w)
      ++ ((λ segment, default [] (folder_metadata frames segment)) <$> todo)
  ∧ (∀ segment content, folder_metadata frames segment = Some content →
       segment ∈ todo
       ∨ dataset_metadata w !! unified_metadata_name segment = Some (JsonFile content) →
       dataset_metadata w' !! unified_metadata_name segment = Some (JsonFile content))
  ∧ (∀ name,
       (∀ segment, segment ∈ todo → is_Some (folder_metadata frames segment) →
                   name ≠ unified_metadata_name segment) →
       dataset_metadata w' !! name = dataset_metadata w !! name).
Proof.
  induction todo as [|head rest IH]; intros w w'; simpl.
  - intros [= <-]. split_and!; [by rewrite app_nil_r| |done].
    intros segment content _ [Hin|?]; [by apply elem_of_nil in Hin|done].
  - destruct (process_folder _ _ _ _ _) as [w1|] eqn:Hstep; [|done].
    intros Hrest. apply IH in Hrest as (Hmeta & Hfiles & Hother).
    apply process_folder_metadata in Hstep as (info & Hinfo & _ & Hinfometa & Hdir).
    split_and!.
    + rewrite Hmeta, Hinfo, fmap_app. simpl. rewrite Hinfometa. by rewrite <- app_assoc.
    + intros segment content Hcontent Hcase. apply (Hfiles segment content Hcontent).
      destruct (decide (segment = head)) as [->|Hne].
      * right. rewrite Hdir, Hcontent. apply lookup_insert_eq.
      * destruct Hcase as [Hin|Hold].
        -- apply elem_of_cons in Hin as [?|?]; [done|by left].
        -- right. rewrite Hdir. destruct (folder_metadata frames head); [|done].
           rewrite lookup_insert_ne; [done|].
           intros Heq. by apply unified_metadata_name_inj in Heq.
    + intros name Hname. rewrite Hother.
      * rewrite Hdir. destruct (folder_metadata frames head) eqn:Hhead; [|done].
        apply lookup_insert_ne. intros Heq. apply (Hname head); [by left|by rewrite Hhead|done].
      * intros segment Hin. apply Hname. by right.
Qed.

(** X16. After a run that reaches its end, the summary carries for each
    segment folder, in sorted order, the content of its
    [metadata.json], or the empty object when the folder has none; each
    folder with a [metadata.json] has a copy of it in the unified
    metadata directory under [<folder>_metadata.json], and no other
    file of that directory is touched. *)
Theorem unified_metadata_follows_folders (p p' : @ProjectDirs Frame) (notes : list Notice) :
  create_unified_dataset copy2_succeeds copy_succeeds timestamp p = (Unified, p', notes) →
  ∃ frames u files summary,
    segments_frames p = Some frames
    ∧ unified_dataset_dir p' = Some u
    ∧ metadata u = Some files
    ∧ dataset_summary_json u = Some summary
    ∧ Summary.metadata <$> Summary.segments summary
      = (λ segment, default [] (folder_metadata frames segment))
        <$> segment_folders frames
    ∧ (∀ segment content, segment ∈ segment_folders frames →
         folder_metadata frames segment = Some content →
         files !! unified_metadata_name segment = Some (JsonFile content))
    ∧ (∀ name,
         (∀ segment, segment ∈ segment_folders frames →
            is_Some (folder_metadata frames segment) →
            name ≠ unified_metadata_name segment) →
         files !! name = metadata_before p !! name).
Proof.
  intros Hrun. apply unified_run in Hrun as (frames & w & Hframes & Hloop & Hdir).
  apply process_folders_metadata in Hloop as (Hmeta & Hfiles & Hother).
  eexists frames, _, (dataset_metadata w), _.
  split_and!; [done|exact Hdir|done|done|exact Hmeta| |exact Hother].
  intros segment content Hin Hcontent. apply (Hfiles segment content Hcontent). by left.
Qed.

(** The statistics and the summary count the same folders and frames. *)
Lemma foldl_add_sum_list {A} (g : A → nat) (l : list A) (start : nat) :
  foldl (λ total x, total + g x)%nat start l = (start + sum_list_with g l)%nat.
Proof.
  revert start. induction l as [|x l IH]; intros start; simpl; [lia|].
  rewrite IH. lia.
Qed.

Lemma length_copies_of (frames : gmap string (@Entry Frame)) (folders : list string) :
  length (copies_of copy2_succeeds copy_succeeds frames folders)
  = sum_list_with
      (λ segment, length (copied_frames copy2_succeeds copy_succeeds frames segment))
      folders.
Proof.
  unfold copies_of. induction folders as [|segment rest IH]; simpl; [done|].
  by rewrite length_app, length_map, IH.
Qed.

Lemma length_copied_frames_le (frames : gmap string (@Entry Frame)) (segment : string) :
  (length (copied_frames copy2_succeeds copy_succeeds frames segment)
   ≤ length (filter (λ name, is_frame_jpg name = true)
               (map_to_list (folder_files frames segment)).*1))%nat.
Proof.
  unfold copied_frames. etrans; [apply length_filter|].
  unfold frame_files, sort_names. by rewrite merge_sort_Permutation.
Qed.

Lemma length_copied_frames_all (frames : gmap string (@Entry Frame)) (segment : string) :
  (∀ name, copy_lands copy2_succeeds copy_succeeds segment name = true) →
  length (copied_frames copy2_succeeds copy_succeeds frames segment)
  = length (filter (λ name, is_frame_jpg name = true)
              (map_to_list (folder_files frames segment)).*1).
Proof.
  intros Hall. unfold copied_frames. rewrite filter_all by done.
  unfold frame_files, sort_names. by rewrite merge_sort_Permutation.
Qed.

Lemma sum_list_with_le {A} (g h : A → nat) (l : list A) :
  (∀ x, g x ≤ h x)%nat → (sum_list_with g l ≤ sum_list_with h l)%nat.
Proof.
  intros Hle. induction l as [|x l IH]; simpl; [done|]. specialize (Hle x). lia.
Qed.

Lemma sum_list_with_ext {A} (g h : A → nat) (l : list A) :
  (∀ x, g x = h x) → sum_list_with g l = sum_list_with h l.
Proof.
  intros Heq. induction l as [|x l IH]; simpl; [done|]. by rewrite Heq, IH.
Qed.

(** X17. After a run that reaches its end, [total_segments] of the
    summary is the number of extracted segments that
    [get_dataset_statistics] reports, [total_frames] is at most the
    number of extracted frames it reports, and equal to it when no copy
    failed; the number of unified frames it reports afterwards is the
    count in the header of the frame list. *)
Theorem statistics_agree_with_summary (p p' : @ProjectDirs Frame) (notes : list Notice) :
  create_unified_dataset copy2_succeeds copy_succeeds timestamp p = (Unified, p', notes) →
  ∃ u summary listing,
    unified_dataset_dir p' = Some u
    ∧ dataset_summary_json u = Some summary
    ∧ frame_list_txt u = Some listing
    ∧ Summary.total_segments summary = extracted_segments p
    ∧ (Summary.total_frames summary ≤ total_extracted_frames p)%nat
    ∧ ((∀ segment name, copy_lands copy2_succeeds copy_succeeds segment name = true) →
       Summary.total_frames summary = total_extracted_frames p)
    ∧ unified_dataset_frames p' = Some (listed_total_frames listing).
Proof.
  intros Hrun. apply unified_run in Hrun as (frames & w & Hframes & Hloop & Hdir).
  apply process_folders_spec in Hloop as (Htotal & _ & _ & _).
  cbn [total_frames_copied initial_progress] in Htotal.
  rewrite length_copies_of in Htotal. simpl in Htotal.
  assert (Hstat : total_extracted_frames p
    = sum_list_with
        (λ segment, length (filter (λ name, is_frame_jpg name = true)
                              (map_to_list (folder_files frames segment)).*1))
        (segment_folders frames)).
  { unfold total_extracted_frames. rewrite Hframes, foldl_add_sum_list. simpl.
    unfold segment_folders, sort_names. by rewrite merge_sort_Permutation. }
  eexists _, _, _. split_and!; [exact Hdir|done|done| | | |].
  - simpl. unfold extracted_segments. rewrite Hframes. apply length_segment_folders.
  - simpl. rewrite Htotal, Hstat. apply sum_list_with_le.
    intros segment. apply length_copied_frames_le.
  - intros Hall. simpl. rewrite Htotal, Hstat. apply sum_list_with_ext.
    intros segment. by apply length_copied_frames_all.
  - unfold unified_dataset_frames. rewrite Hdir. simpl.
    by rewrite length_sort_names.
Qed.
End UnifierMore.

Lemma unification_raises_on_metadata_witness :
  (create_unified_dataset always always "2024-05-01 12:00:00" unreadable_metadata).1.1
  = UnifyRaised.
Proof.
  assert (Hframes : segments_frames unreadable_metadata
     = Some {[ "a_segment_1" := Folder {[ "frame_0001.jpg" := Image 1%nat ]};
               "b_segment_1" := Folder {[ "frame_0001.jpg" := Image 2%nat;
                                          "metadata.json" := Blob ]} ]})
    by reflexivity.
  assert (Hfolders : segment_folders
     ({[ "a_segment_1" := Folder {[ "frame_0001.jpg" := Image 1%nat ]};
         "b_segment_1" := Folder {[ "frame_0001.jpg" := Image 2%nat;
                                    "metadata.json" := Blob ]} ]}
        : gmap string (@Entry nat)) ≠ [])
    by (vm_compute; discriminate).
  destruct (unification_raises_on_metadata always always "2024-05-01 12:00:00"
              unreadable_metadata _ Hframes Hfolders) as [_ H].
  apply H. intros Hall. rewrite Forall_forall in Hall.
  assert (Hb : metadata_readable always
                 ({[ "a_segment_1" := Folder {[ "frame_0001.jpg" := Image 1%nat ]};
                     "b_segment_1" := Folder {[ "frame_0001.jpg" := Image 2%nat;
                                                "metadata.json" := Blob ]} ]}
                    : gmap string (@Entry nat)) "b_segment_1" = false)
    by (vm_compute; reflexivity).
  rewrite Hall in Hb; [discriminate Hb|].
  replace (segment_folders _) with ["a_segment_1"; "b_segment_1"]%string
    by (vm_compute; reflexivity).
  apply list_elem_of_further, list_elem_of_here.
Defined.

Lemma two_segments_unified :
  create_unified_dataset always always "2024-05-01 12:00:00" two_segments
  = (Unified,
     (create_unified_dataset always always "2024-05-01 12:00:00" two_segments).1.2,
     (create_unified_dataset always always "2024-05-01 12:00:00" two_segments).2).
Proof. vm_compute. reflexivity. Defined.

Lemma frame_list_reflects_disk_witness :
  ∃ u listing,
    unified_dataset_dir
      (create_unified_dataset always always "2024-05-01 12:00:00" two_segments).1.2
    = Some u
    ∧ frame_list_txt u = Some listing
    ∧ listed_total_frames listing = length (listed_files listing)
    ∧ NoDup (listed_files listing).
Proof.
  destruct (frame_list_reflects_disk always always "2024-05-01 12:00:00"
              two_segments _ _ two_segments_unified)
    as (frames & u & imgs & listing & _ & Hu & _ & Hlisting & _ & Hnodup & _ & Hcount & _).
  exists u, listing. split; [exact Hu|]. split; [exact Hlisting|].
  split; [exact Hcount|exact Hnodup].
Defined.

Lemma unified_metadata_follows_folders_witness :
  ∃ u files,
    unified_dataset_dir
      (create_unified_dataset always always "2024-05-01 12:00:00" two_segments).1.2
    = Some u
    ∧ metadata u = Some files
    ∧ files !! "a_segment_1_metadata.json" = Some (JsonFile []).
Proof.
  destruct (unified_metadata_follows_folders always always "2024-05-01 12:00:00"
              two_segments _ _ two_segments_unified)
    as (frames & u & files & summary & Hframes & Hu & Hfiles & _ & _ & Hcopies & _).
  exists u, files. split; [exact Hu|]. split; [exact Hfiles|].
  injection Hframes as <-.
  apply (Hcopies "a_segment_1"%string []).
  - replace (segment_folders _) with ["a_segment_1"; "b_segment_1"]%string
      by (vm_compute; reflexivity).
    apply list_elem_of_here.
  - vm_compute. reflexivity.
Defined.

Lemma statistics_agree_with_summary_witness :
  extracted_segments two_segments = 2%nat
  ∧ total_extracted_frames two_segments = 5%nat
  ∧ ∃ u summary,
      unified_dataset_dir
        (create_unified_dataset always always "2024-05-01 12:00:00" two_segments).1.2
      = Some u
      ∧ dataset_summary_json u = Some summary
      ∧ Summary.total_segments summary = extracted_segments two_segments
      ∧ Summary.total_frames summary = total_extracted_frames two_segments.
Proof.
  split; [vm_compute; reflexivity|]. split; [vm_compute; reflexivity|].
  destruct (statistics_agree_with_summary always always "2024-05-01 12:00:00"
              two_segments _ _ two_segments_unified)
    as (u & summary & listing & Hu & Hsummary & _ & Hsegments & _ & Hframes & _).
  exists u, summary. split; [exact Hu|]. split; [exact Hsummary|].
  split; [exact Hsegments|]. apply Hframes. reflexivity.
Defined.
